(** * Flight performance calculator (flight_calculator.cpp)

    A shallow embedding of the four computations of
    [xplane_mfd::calc]: wind vector with gust analysis, envelope
    margins, energy state and glide reach, together with the angle and
    vector helpers they use.

    Arithmetic.  The source computes on C++ [double].  The main
    development reads a [double] as a real number ([R]): [+ - * /] are the
    field operations, [std::sqrt], [std::sin], [std::cos] and
    [std::atan2] are the mathematical functions, and a comparison is the
    order of [R].  Rounding, infinities and NaN are not part of this
    reading.  Where the behaviour of a loop depends on rounding, module
    [Binary64] repeats the function on IEEE-754 binary64 numbers
    (primitive floats), with fuel for the loops. *)

From Stdlib Require Import Reals Lra Lia ZArith List Psatz.
From Stdlib Require PrimFloat.
From Stdlib Require String.
From Equations Require Import Equations.
Import ListNotations.

Open Scope R_scope.

(** ** Constants *)

Definition DEG_TO_RAD : R := PI / 180.
Definition RAD_TO_DEG : R := 180 / PI.
Definition GRAVITY : R := 9.80665.
Definition KTS_TO_MS : R := 0.514444.
Definition FT_TO_M : R := 0.3048.
Definition M_TO_FT : R := 3.28084.

(** ** Library functions

    [std::atan2 (y, x)]: the angle of the point [(x, y)], in (-PI, PI].
    At the origin the result is 0, as for [atan2 (+0.0, +0.0)]. *)

Definition atan2 (y x : R) : R :=
  if Rlt_dec 0 x then atan (y / x)
  else if Rlt_dec x 0 then
    if Rle_dec 0 y then atan (y / x) + PI else atan (y / x) - PI
  else if Rlt_dec 0 y then PI / 2
  else if Rlt_dec y 0 then - (PI / 2)
  else 0.

(** [std::min] on an initializer list: the leftmost smallest element,
    found by a scan that replaces the candidate when a later element
    is strictly smaller. *)

Definition std_min (first : R) (rest : list R) : R :=
  fold_left (fun smallest v => if Rlt_dec v smallest then v else smallest)
            rest first.

(** ** Vector2D *)

Module Vector2D.

Record t : Type := make { x : R; y : R }.

Definition magnitude (v : t) : R := sqrt (x v * x v + y v * y v).

(** [operator-] *)
Definition sub (v other : t) : t := make (x v - x other) (y v - y other).

End Vector2D.

(** ** normalize_angle

    The two [while] loops, one function each.  Every iteration of the
    first moves the angle up by one turn, so [up (- angle / 360)]
    decreases; every iteration of the second moves it down, so
    [up (angle / 360)] decreases. *)

Lemma turns_decrease (r : R) :
  0 < r -> (Z.to_nat (up (r - 1)) < Z.to_nat (up r))%nat.
Proof.
  intros Hr.
  destruct (archimed r) as [Hgt Hle].
  assert (Hup : (0 < up r)%Z) by (apply lt_IZR; lra).
  replace (up (r - 1)) with (up r - 1)%Z; [lia|].
  apply tech_up; rewrite minus_IZR; lra.
Qed.

Equations? while_negative (angle : R) : R
  by wf (Z.to_nat (up (- angle / 360))) lt :=
  while_negative angle with Rlt_dec angle 0 := {
    | left _ => while_negative (angle + 360)
    | right _ => angle }.
Proof.
  replace (- (angle + 360) / 360) with (- angle / 360 - 1) by field.
  apply turns_decrease. lra.
Qed.

Equations? while_ge_360 (angle : R) : R
  by wf (Z.to_nat (up (angle / 360))) lt :=
  while_ge_360 angle with Rge_dec angle 360 := {
    | left _ => while_ge_360 (angle - 360)
    | right _ => angle }.
Proof.
  replace ((angle - 360) / 360) with (angle / 360 - 1) by field.
  apply turns_decrease. lra.
Qed.

Definition normalize_angle (angle : R) : R :=
  while_ge_360 (while_negative angle).

(** The number of times each loop body runs, by the same recursion. *)

Equations? while_negative_iterations (angle : R) : nat
  by wf (Z.to_nat (up (- angle / 360))) lt :=
  while_negative_iterations angle with Rlt_dec angle 0 := {
    | left _ => S (while_negative_iterations (angle + 360))
    | right _ => O }.
Proof.
  replace (- (angle + 360) / 360) with (- angle / 360 - 1) by field.
  apply turns_decrease. lra.
Qed.

Equations? while_ge_360_iterations (angle : R) : nat
  by wf (Z.to_nat (up (angle / 360))) lt :=
  while_ge_360_iterations angle with Rge_dec angle 360 := {
    | left _ => S (while_ge_360_iterations (angle - 360))
    | right _ => O }.
Proof.
  replace ((angle - 360) / 360) with (angle / 360 - 1) by field.
  apply turns_decrease. lra.
Qed.

Definition normalize_angle_iterations (angle : R) : nat :=
  (while_negative_iterations angle
   + while_ge_360_iterations (while_negative angle))%nat.

(** ** 1. Wind vector *)

Record WindData : Type := mkWindData {
  speed_kts : R;
  direction_from : R;   (* deg, where wind comes FROM *)
  headwind : R;
  crosswind : R;
  gust_factor : R
}.

(** The copy of the history into [history_buffer]. *)

Fixpoint copy_history (ias_history : list R) : list R :=
  match ias_history with
  | [] => []
  | v :: rest => v :: copy_history rest
  end.

(** The scan of the buffer: running maximum and running sum. *)

Fixpoint scan_history (history_buffer : list R) (max_ias sum_ias : R) : R * R :=
  match history_buffer with
  | [] => (max_ias, sum_ias)
  | v :: rest =>
      scan_history rest (if Rgt_dec v max_ias then v else max_ias) (sum_ias + v)
  end.

(** The gust branch of [calculate_wind_vector]. *)

Definition gust_analysis (ias_history : list R) : R :=
  match ias_history with
  | [] => 0
  | _ :: _ =>
      let history_buffer := copy_history ias_history in
      let (max_ias, sum_ias) := scan_history history_buffer 0 0 in
      let avg_ias := sum_ias / INR (length ias_history) in
      max_ias - avg_ias
  end.

Definition calculate_wind_vector
  (tas_kts gs_kts heading_deg track_deg : R) (ias_history : list R) : WindData :=
  let psi_rad := heading_deg * DEG_TO_RAD in
  let chi_rad := track_deg * DEG_TO_RAD in
  let air_vec := Vector2D.make (tas_kts * sin psi_rad) (tas_kts * cos psi_rad) in
  let ground_vec := Vector2D.make (gs_kts * sin chi_rad) (gs_kts * cos chi_rad) in
  let wind_vec := Vector2D.sub ground_vec air_vec in
  let speed := Vector2D.magnitude wind_vec in
  let wind_to_rad := atan2 (Vector2D.x wind_vec) (Vector2D.y wind_vec) in
  let direction := normalize_angle (wind_to_rad * RAD_TO_DEG + 180) in
  let rel_wind_rad := (direction + 180 - track_deg) * DEG_TO_RAD in
  {| speed_kts := speed;
     direction_from := direction;
     headwind := - speed * cos rel_wind_rad;
     crosswind := speed * sin rel_wind_rad;
     gust_factor := gust_analysis ias_history |}.

(** ** 2. Envelope margins *)

Record EnvelopeMargins : Type := mkEnvelopeMargins {
  stall_margin_pct : R;
  vmo_margin_pct : R;
  mmo_margin_pct : R;
  min_margin_pct : R;
  corner_speed_kts : R;
  current_load_factor : R
}.

(** The first, fourth and sixth parameters are unnamed in the source. *)

Definition calculate_envelope
  (weight_kg bank_deg ias_kts tas_kts mach altitude_ft vso_kts vne_kts mmo : R)
  : EnvelopeMargins :=
  let bank_rad := bank_deg * DEG_TO_RAD in
  let load_factor := 1 / cos bank_rad in
  let vs_current := vso_kts * sqrt load_factor in
  let stall :=
    if Rgt_dec vs_current 0
    then ((ias_kts - vs_current) / vs_current) * 100
    else 100 in
  let vmo :=
    if Rgt_dec vne_kts 0
    then ((vne_kts - ias_kts) / vne_kts) * 100
    else 100 in
  let mmo_margin :=
    if Rgt_dec mmo 0
    then ((mmo - mach) / mmo) * 100
    else 100 in
  {| stall_margin_pct := stall;
     vmo_margin_pct := vmo;
     mmo_margin_pct := mmo_margin;
     min_margin_pct := std_min stall [vmo; mmo_margin];
     corner_speed_kts := vso_kts * sqrt 2.5;
     current_load_factor := load_factor |}.

(** ** 3. Energy management *)

Inductive EnergyTrend : Type :=
  | Decreasing
  | Stable
  | Increasing.

Record EnergyData : Type := mkEnergyData {
  specific_energy_ft : R;
  specific_energy_rate : R;
  trend : EnergyTrend
}.

Definition calculate_energy (tas_kts altitude_ft vs_fpm : R) : EnergyData :=
  let v_ms := tas_kts * KTS_TO_MS in
  let h_m := altitude_ft * FT_TO_M in
  let ke_m := (v_ms * v_ms) / (2 * GRAVITY) in
  let specific_energy_m := ke_m + h_m in
  let rate := vs_fpm in
  {| specific_energy_ft := specific_energy_m * M_TO_FT;
     specific_energy_rate := rate;
     trend := if Rgt_dec rate 50 then Increasing
              else if Rlt_dec rate (-50) then Decreasing
              else Stable |}.

(** ** 4. Glide reach *)

Record GlideData : Type := mkGlideData {
  max_range_nm : R;
  max_range_with_wind_nm : R;
  glide_ratio : R;
  best_glide_speed_kts : R
}.

(** The second and third parameters are unnamed in the source. *)

Definition calculate_glide_reach (agl_ft tas_kts weight_kg headwind_kts : R)
  : GlideData :=
  let ratio := 12 in
  let best_glide := 75 in
  let altitude_nm := agl_ft / 6076 in
  let still_air := altitude_nm * ratio in
  let wind_factor :=
    if Rgt_dec best_glide 0 then 1 - headwind_kts / best_glide else 1 in
  let with_wind := still_air * wind_factor in
  {| max_range_nm := still_air;
     max_range_with_wind_nm := if Rlt_dec with_wind 0 then 0 else with_wind;
     glide_ratio := ratio;
     best_glide_speed_kts := best_glide |}.

(** ** normalize_angle on binary64

    The same two loops on IEEE-754 binary64 numbers, rounding to
    nearest.  Nothing bounds the number of iterations here, so the
    loops take fuel: [None] means that the loop was still running when
    the fuel ran out. *)

Module Binary64.

Import PrimFloat.
Local Open Scope float_scope.

Fixpoint while_negative (fuel : nat) (angle : float) : option float :=
  match fuel with
  | O => None
  | S fuel' =>
      if angle <? 0 then while_negative fuel' (angle + 360) else Some angle
  end.

Fixpoint while_ge_360 (fuel : nat) (angle : float) : option float :=
  match fuel with
  | O => None
  | S fuel' =>
      if 360 <=? angle then while_ge_360 fuel' (angle - 360) else Some angle
  end.

Definition normalize_angle (fuel : nat) (angle : float) : option float :=
  match while_negative fuel angle with
  | Some angle' => while_ge_360 fuel angle'
  | None => None
  end.

End Binary64.

(** ** What the specification calls maximum and mean of a history *)

Definition history_max (h : list R) : R :=
  match h with
  | [] => 0
  | v :: rest => fold_left Rmax rest v
  end.

Definition history_mean (h : list R) : R :=
  fold_right Rplus 0 h / INR (length h).

(** ** binomial_coefficient

    [n] and [k] are [unsigned int] values, the result is an
    [unsigned long long]: the sum of the two recursive results wraps
    modulo 2^64.  The recursive case is only reached with [2 <= k < n],
    so [n - 1] and [k - 1] do not wrap. *)

Definition ULLONG_WRAP : Z := 2 ^ 64.

Fixpoint binomial_coefficient (n k : nat) {struct n} : Z :=
  if (n <? k)%nat then 0%Z
  else if orb (k =? 0)%nat (k =? n)%nat then 1%Z
  else if (k =? 1)%nat then Z.of_nat n
  else
    match n with
    | O => 0%Z  (* not reached: here 2 <= k < n *)
    | S n' =>
        ((binomial_coefficient n' (k - 1) + binomial_coefficient n' k)
           mod ULLONG_WRAP)%Z
    end.

(** ** print_json_results and main

    [print_json_results] is modelled by the values it prints, before
    formatting.  [main] is modelled by its exit code and, when it gets
    that far, the values handed to [print_json_results]; its argument is
    [argv] without the program name. *)

Record JsonResults : Type := mkJsonResults {
  json_wind : WindData;
  json_envelope : EnvelopeMargins;
  json_energy : EnergyData;
  json_glide : GlideData;
  combinations_5_choose_2 : Z;
  combinations_10_choose_3 : Z
}.

Definition print_json_results
  (wind : WindData) (envelope : EnvelopeMargins) (energy : EnergyData)
  (glide : GlideData) : JsonResults :=
  {| json_wind := wind;
     json_envelope := envelope;
     json_energy := energy;
     json_glide := glide;
     combinations_5_choose_2 := binomial_coefficient 5 2;
     combinations_10_choose_3 := binomial_coefficient 10 3 |}.

Section Main.

(** [parse_double] is [std::stod] on one argument: [None] stands for the
    exception it throws on text that is not a number. *)
Variable parse_double : String.string -> option R.

(** The fourteen calls of [parse_double], in order; the first exception
    ends the [try] block. *)

Fixpoint parse_arguments (args : list String.string) : option (list R) :=
  match args with
  | [] => Some []
  | arg :: rest =>
      match parse_double arg with
      | None => None
      | Some v =>
          match parse_arguments rest with
          | None => None
          | Some vs => Some (v :: vs)
          end
      end
  end.

Definition main (args : list String.string) : Z * option JsonResults :=
  if negb (length args =? 14)%nat then (1%Z, None)
  else
    match parse_arguments args with
    | Some [tas_kts; gs_kts; heading; track; ias_kts; mach; altitude_ft;
            agl_ft; vs_fpm; weight_kg; bank_deg; vso_kts; vne_kts; mmo] =>
        let ias_history := [145.5; 148; 151.2; 149.5; 155.8; 152.1] in
        let wind :=
          calculate_wind_vector tas_kts gs_kts heading track ias_history in
        let envelope :=
          calculate_envelope weight_kg bank_deg ias_kts tas_kts mach
                             altitude_ft vso_kts vne_kts mmo in
        let energy := calculate_energy tas_kts altitude_ft vs_fpm in
        let glide :=
          calculate_glide_reach agl_ft tas_kts weight_kg (headwind wind) in
        (0%Z, Some (print_json_results wind envelope energy glide))
    | _ => (1%Z, None)
    end.

End Main.

(** ** The binomial coefficient of mathematics

    Pascal's triangle on natural numbers, without wrap-around: the
    number of [k]-element subsets of an [n]-element set.  Reference for
    [binomial_coefficient]. *)

Fixpoint choose (n k : nat) : nat :=
  match n, k with
  | _, O => 1%nat
  | O, S _ => 0%nat
  | S n', S k' => (choose n' k' + choose n' (S k'))%nat
  end.

(** * Properties *)

(** ** normalize_angle over the reals *)

Lemma while_negative_nonneg (a : R) : 0 <= while_negative a.
Proof.
  funelim (while_negative a); [assumption | lra].
Qed.

Lemma while_negative_fixed (a : R) : 0 <= a -> while_negative a = a.
Proof.
  intros Ha. simp while_negative.
  destruct (Rlt_dec a 0); [lra | reflexivity].
Qed.

Lemma while_negative_below (a : R) : a < 360 -> while_negative a < 360.
Proof.
  funelim (while_negative a); intros Hlt.
  - apply H. lra.
  - exact Hlt.
Qed.

Lemma while_ge_360_below (a : R) : while_ge_360 a < 360.
Proof.
  funelim (while_ge_360 a); [assumption | lra].
Qed.

Lemma while_ge_360_nonneg (a : R) : 0 <= a -> 0 <= while_ge_360 a.
Proof.
  funelim (while_ge_360 a); intros Hle.
  - apply H. lra.
  - exact Hle.
Qed.

Lemma while_ge_360_fixed (a : R) : a < 360 -> while_ge_360 a = a.
Proof.
  intros Ha. simp while_ge_360.
  destruct (Rge_dec a 360); [lra | reflexivity].
Qed.

Lemma normalize_angle_range (a : R) : 0 <= normalize_angle a < 360.
Proof.
  unfold normalize_angle. split.
  - apply while_ge_360_nonneg, while_negative_nonneg.
  - apply while_ge_360_below.
Qed.

Lemma normalize_angle_fixed (a : R) : 0 <= a < 360 -> normalize_angle a = a.
Proof.
  intros [H0 H360]. unfold normalize_angle.
  rewrite while_negative_fixed by assumption.
  apply while_ge_360_fixed; assumption.
Qed.

Lemma normalize_angle_idempotent (a : R) :
  normalize_angle (normalize_angle a) = normalize_angle a.
Proof.
  apply normalize_angle_fixed, normalize_angle_range.
Qed.

(** The result differs from the input by a whole number of turns. *)

Lemma while_negative_turns (a : R) :
  exists k : nat, while_negative a = a + 360 * INR k.
Proof.
  funelim (while_negative a).
  - destruct H as [k Hk]. exists (S k). rewrite Hk, S_INR. lra.
  - exists O. simpl. lra.
Qed.

Lemma while_ge_360_turns (a : R) :
  exists k : nat, while_ge_360 a = a - 360 * INR k.
Proof.
  funelim (while_ge_360 a).
  - destruct H as [k Hk]. exists (S k). rewrite Hk, S_INR. lra.
  - exists O. simpl. lra.
Qed.

Lemma normalize_angle_turns (a : R) :
  exists k : Z, normalize_angle a = a + 360 * IZR k.
Proof.
  unfold normalize_angle.
  destruct (while_negative_turns a) as [i Hi].
  destruct (while_ge_360_turns (while_negative a)) as [j Hj].
  exists (Z.of_nat i - Z.of_nat j)%Z.
  rewrite Hj, Hi, minus_IZR, <- !INR_IZR_INZ. lra.
Qed.

(** ** Iteration counts of normalize_angle *)

Lemma while_negative_iterations_nonneg (a : R) :
  0 <= a -> while_negative_iterations a = O.
Proof.
  intros Ha. simp while_negative_iterations.
  destruct (Rlt_dec a 0); [lra | reflexivity].
Qed.

Lemma while_ge_360_iterations_below (a : R) :
  a < 360 -> while_ge_360_iterations a = O.
Proof.
  intros Ha. simp while_ge_360_iterations.
  destruct (Rge_dec a 360); [lra | reflexivity].
Qed.

Lemma while_ge_360_iterations_turns (n : nat) (r : R) :
  0 <= r < 360 -> while_ge_360_iterations (r + 360 * INR n) = n.
Proof.
  intros Hr. induction n as [|n IH].
  - simpl. rewrite Rmult_0_r, Rplus_0_r.
    apply while_ge_360_iterations_below; lra.
  - simp while_ge_360_iterations.
    pose proof (pos_INR n) as Hn.
    rewrite S_INR.
    destruct (Rge_dec (r + 360 * (INR n + 1)) 360) as [Hge|Hlt]; cbn.
    + f_equal. rewrite <- IH at 2. f_equal. lra.
    + lra.
Qed.

Lemma while_negative_iterations_turns (n : nat) (r : R) :
  0 <= r < 360 -> while_negative_iterations (r - 360 * INR n) = n.
Proof.
  intros Hr. induction n as [|n IH].
  - simpl. rewrite Rmult_0_r, Rminus_0_r.
    apply while_negative_iterations_nonneg; lra.
  - simp while_negative_iterations.
    pose proof (pos_INR n) as Hn.
    rewrite S_INR.
    destruct (Rlt_dec (r - 360 * (INR n + 1)) 0) as [Hlt|Hge]; cbn.
    + f_equal. rewrite <- IH at 2. f_equal. lra.
    + lra.
Qed.

(** An input of [n] full turns makes the second loop run [n] times. *)

Lemma normalize_angle_iterations_full_turns (n : nat) :
  normalize_angle_iterations (360 * INR n) = n.
Proof.
  unfold normalize_angle_iterations.
  pose proof (pos_INR n) as Hn.
  rewrite while_negative_iterations_nonneg by lra.
  rewrite while_negative_fixed by lra.
  replace (360 * INR n) with (0 + 360 * INR n) by lra.
  rewrite while_ge_360_iterations_turns by lra.
  reflexivity.
Qed.

Lemma normalize_angle_iterations_negative_turns (n : nat) :
  normalize_angle_iterations (- 360 * INR n) = n.
Proof.
  unfold normalize_angle_iterations.
  replace (- 360 * INR n) with (0 - 360 * INR n) by lra.
  rewrite while_negative_iterations_turns by lra.
  destruct (while_negative_turns (0 - 360 * INR n)) as [k Hk].
  rewrite while_ge_360_iterations_below; [lia|].
  apply while_negative_below.
  pose proof (pos_INR n). lra.
Qed.

Example normalize_angle_iterations_720 :
  normalize_angle_iterations 720 = 2%nat /\ normalize_angle_iterations 0 = 0%nat.
Proof.
  split.
  - replace 720 with (360 * INR 2) by (simpl; lra).
    apply normalize_angle_iterations_full_turns.
  - replace 0 with (360 * INR 0) by (simpl; lra).
    apply normalize_angle_iterations_full_turns.
Qed.

(** C7: the number of loop iterations of [normalize_angle] is not
    independent of the input and has no bound: whatever the bound, some
    angle makes the loops run more often (720 degrees twice, 0 degrees
    never, [360 * n] degrees [n] times). *)
Theorem normalize_angle_iterations_unbounded (bound : nat) :
  exists angle : R, (bound < normalize_angle_iterations angle)%nat.
Proof.
  exists (360 * INR (S bound)).
  rewrite normalize_angle_iterations_full_turns. lia.
Qed.

(** ** normalize_angle on binary64 *)

Module Binary64_facts.

Import PrimFloat.
Local Open Scope float_scope.

(** Ordinary inputs: the loops run and leave a value in range. *)

Example normalize_angle_minus_90 :
  Binary64.normalize_angle 2 (-90) = Some 270.
Proof. vm_compute. reflexivity. Qed.

Example normalize_angle_720 :
  Binary64.normalize_angle 2 720 = None /\
  Binary64.normalize_angle 3 720 = Some 0.
Proof. split; vm_compute; reflexivity. Qed.

(** At magnitude 2^100 one turn is less than half a unit in the last
    place, so adding or subtracting 360 gives back the same number. *)

Lemma huge_is_finite :
  is_finite (-0x1p+100) = true /\ is_finite 0x1p+100 = true.
Proof. split; vm_compute; reflexivity. Qed.

Lemma add_360_absorbed : -0x1p+100 + 360 = -0x1p+100.
Proof. vm_compute. reflexivity. Qed.

Lemma sub_360_absorbed : 0x1p+100 - 360 = 0x1p+100.
Proof. vm_compute. reflexivity. Qed.

Lemma while_negative_diverges (fuel : nat) :
  Binary64.while_negative fuel (-0x1p+100) = None.
Proof.
  induction fuel as [|fuel IH]; [reflexivity|].
  cbn [Binary64.while_negative].
  replace (-0x1p+100 <? 0) with true by (vm_compute; reflexivity).
  rewrite add_360_absorbed. exact IH.
Qed.

Lemma while_ge_360_diverges (fuel : nat) :
  Binary64.while_ge_360 fuel 0x1p+100 = None.
Proof.
  induction fuel as [|fuel IH]; [reflexivity|].
  cbn [Binary64.while_ge_360].
  replace (360 <=? 0x1p+100) with true by (vm_compute; reflexivity).
  rewrite sub_360_absorbed. exact IH.
Qed.

(** C6: on binary64 [normalize_angle] returns no value for the finite
    input -2^100: the first loop is still running whatever the fuel,
    so there is no result to lie in [0,360). *)
Theorem normalize_angle_diverges (fuel : nat) :
  is_finite (-0x1p+100) = true /\
  Binary64.normalize_angle fuel (-0x1p+100) = None.
Proof.
  split; [apply huge_is_finite|].
  unfold Binary64.normalize_angle.
  rewrite while_negative_diverges. reflexivity.
Qed.

Lemma normalize_angle_diverges_positive (fuel : nat) :
  Binary64.normalize_angle fuel 0x1p+100 = None.
Proof.
  unfold Binary64.normalize_angle.
  destruct fuel as [|fuel]; [reflexivity|].
  cbn [Binary64.while_negative].
  replace (0x1p+100 <? 0) with false by (vm_compute; reflexivity).
  apply while_ge_360_diverges.
Qed.

End Binary64_facts.

(** ** Wind vector *)

(** C1: the wind vector is the ground vector (ground speed at bearing
    track, east = sin, north = cos) minus the air vector (true airspeed
    at bearing heading).  The reported speed is its magnitude, the
    direction-from is [normalize_angle] of its [atan2 (x, y)] in degrees
    plus 180, and with relative bearing = direction-from + 180 - track,
    headwind = - speed * cos and crosswind = speed * sin of that bearing
    in radians. *)
Theorem calculate_wind_vector_spec
  (tas_kts gs_kts heading_deg track_deg : R) (ias_history : list R) :
  let ground_vec :=
    Vector2D.make (gs_kts * sin (track_deg * (PI / 180)))
                  (gs_kts * cos (track_deg * (PI / 180))) in
  let air_vec :=
    Vector2D.make (tas_kts * sin (heading_deg * (PI / 180)))
                  (tas_kts * cos (heading_deg * (PI / 180))) in
  let wind_vec := Vector2D.sub ground_vec air_vec in
  let w := calculate_wind_vector tas_kts gs_kts heading_deg track_deg ias_history in
  let relative_bearing := direction_from w + 180 - track_deg in
  Vector2D.x wind_vec
    = gs_kts * sin (track_deg * (PI / 180)) - tas_kts * sin (heading_deg * (PI / 180)) /\
  Vector2D.y wind_vec
    = gs_kts * cos (track_deg * (PI / 180)) - tas_kts * cos (heading_deg * (PI / 180)) /\
  speed_kts w
    = sqrt (Vector2D.x wind_vec * Vector2D.x wind_vec
            + Vector2D.y wind_vec * Vector2D.y wind_vec) /\
  direction_from w
    = normalize_angle
        (atan2 (Vector2D.x wind_vec) (Vector2D.y wind_vec) * (180 / PI) + 180) /\
  headwind w = - speed_kts w * cos (relative_bearing * (PI / 180)) /\
  crosswind w = speed_kts w * sin (relative_bearing * (PI / 180)).
Proof.
  cbv zeta. unfold calculate_wind_vector, Vector2D.magnitude, Vector2D.sub,
    DEG_TO_RAD, RAD_TO_DEG. cbn [Vector2D.x Vector2D.y speed_kts direction_from
    headwind crosswind].
  repeat split; reflexivity.
Qed.

(** The reported direction is a bearing in [0,360). *)

Lemma direction_from_range
  (tas_kts gs_kts heading_deg track_deg : R) (ias_history : list R) :
  0 <= direction_from
         (calculate_wind_vector tas_kts gs_kts heading_deg track_deg ias_history)
    < 360.
Proof. apply normalize_angle_range. Qed.

(** Inside [calculate_wind_vector] the argument of [normalize_angle]
    is within one turn, so there each loop runs at most once. *)

Lemma atan2_bound (y x : R) : - PI < atan2 y x <= PI.
Proof.
  pose proof PI_RGT_0 as Hpi. unfold atan2.
  destruct (Rlt_dec 0 x) as [Hx|Hx].
  - pose proof (atan_bound (y / x)). lra.
  - destruct (Rlt_dec x 0) as [Hx'|Hx'].
    + pose proof (atan_bound (y / x)) as Hb.
      destruct (Rle_dec 0 y) as [Hy|Hy].
      * assert (Hq : y / x <= 0).
        { unfold Rdiv.
          assert (/ x < 0) by (apply Rinv_lt_0_compat; assumption). nra. }
        assert (atan (y / x) <= 0).
        { destruct Hq as [Hq|Hq].
          - left. rewrite <- atan_0. apply atan_increasing. exact Hq.
          - rewrite Hq, atan_0. lra. }
        lra.
      * assert (Hq : 0 < y / x).
        { unfold Rdiv.
          assert (/ x < 0) by (apply Rinv_lt_0_compat; assumption). nra. }
        assert (0 < atan (y / x))
          by (rewrite <- atan_0; apply atan_increasing; exact Hq).
        lra.
    + destruct (Rlt_dec 0 y); [lra|]. destruct (Rlt_dec y 0); lra.
Qed.

Lemma wind_direction_argument (y x : R) :
  0 < atan2 y x * RAD_TO_DEG + 180 <= 360.
Proof.
  pose proof PI_RGT_0 as Hpi.
  destruct (atan2_bound y x) as [Hlo Hhi].
  unfold RAD_TO_DEG.
  replace (atan2 y x * (180 / PI)) with (180 * (atan2 y x / PI))
    by (field; lra).
  assert (Hq1 : -1 < atan2 y x / PI).
  { apply Rmult_lt_reg_r with PI; [lra|]. unfold Rdiv.
    rewrite Rmult_assoc, Rinv_l by lra. lra. }
  assert (Hq2 : atan2 y x / PI <= 1).
  { apply Rmult_le_reg_r with PI; [lra|]. unfold Rdiv.
    rewrite Rmult_assoc, Rinv_l by lra. lra. }
  lra.
Qed.

Lemma normalize_angle_iterations_one_turn (a : R) :
  0 <= a <= 360 -> (normalize_angle_iterations a <= 1)%nat.
Proof.
  intros [Hlo Hhi]. unfold normalize_angle_iterations.
  rewrite while_negative_iterations_nonneg, while_negative_fixed by assumption.
  simp while_ge_360_iterations.
  destruct (Rge_dec a 360) as [Hge|Hlt]; cbn; [|lia].
  rewrite while_ge_360_iterations_below by lra. lia.
Qed.

(** C9: when heading equals track and true airspeed equals ground
    speed the reported wind speed is 0; and for one history the gust
    factor is the same whatever the speeds and angles. *)
Theorem calculate_wind_vector_no_wind
  (tas_kts gs_kts heading_deg track_deg : R) (ias_history : list R) :
  heading_deg = track_deg ->
  tas_kts = gs_kts ->
  speed_kts
    (calculate_wind_vector tas_kts gs_kts heading_deg track_deg ias_history) = 0
  /\
  forall tas' gs' heading' track' : R,
    gust_factor
      (calculate_wind_vector tas' gs' heading' track' ias_history)
    = gust_factor
        (calculate_wind_vector tas_kts gs_kts heading_deg track_deg ias_history).
Proof.
  intros -> ->. split.
  - unfold calculate_wind_vector, Vector2D.magnitude, Vector2D.sub.
    cbn [Vector2D.x Vector2D.y speed_kts].
    rewrite !Rminus_diag, Rmult_0_l, Rplus_0_l.
    apply sqrt_0.
  - intros. reflexivity.
Qed.

Lemma calculate_wind_vector_no_wind_witness :
  speed_kts (calculate_wind_vector 250 250 90 90 [145.5; 148]) = 0
  /\
  forall tas' gs' heading' track' : R,
    gust_factor (calculate_wind_vector tas' gs' heading' track' [145.5; 148])
    = gust_factor (calculate_wind_vector 250 250 90 90 [145.5; 148]).
Proof.
  apply (calculate_wind_vector_no_wind 250 250 90 90 [145.5; 148]);
    reflexivity.
Defined.

(** ** Gust factor *)

Lemma copy_history_same (h : list R) : copy_history h = h.
Proof.
  induction h as [|v rest IH]; simpl; [reflexivity | now rewrite IH].
Qed.

Lemma scan_history_fold (buf : list R) (max_ias sum_ias : R) :
  scan_history buf max_ias sum_ias
  = (fold_left Rmax buf max_ias, sum_ias + fold_right Rplus 0 buf).
Proof.
  revert max_ias sum_ias.
  induction buf as [|v rest IH]; intros max_ias sum_ias; simpl.
  - f_equal. lra.
  - rewrite IH. f_equal.
    + f_equal. unfold Rmax.
      destruct (Rgt_dec v max_ias), (Rle_dec max_ias v); lra.
    + lra.
Qed.

Lemma fold_left_Rmax_init (l : list R) (a b : R) :
  fold_left Rmax l (Rmax a b) = Rmax a (fold_left Rmax l b).
Proof.
  revert b. induction l as [|v rest IH]; intros b; simpl; [reflexivity|].
  rewrite <- IH. f_equal.
  rewrite !Rmax_assoc. reflexivity.
Qed.

(** What the scan returns: the larger of 0 and the maximum, minus
    the mean. *)

Lemma gust_analysis_value (v : R) (rest : list R) :
  gust_analysis (v :: rest)
  = Rmax 0 (history_max (v :: rest)) - history_mean (v :: rest).
Proof.
  unfold gust_analysis, history_max, history_mean.
  rewrite copy_history_same, scan_history_fold.
  cbn [fold_left fold_right].
  rewrite fold_left_Rmax_init, Rplus_0_l.
  reflexivity.
Qed.

Lemma gust_factor_empty (tas_kts gs_kts heading_deg track_deg : R) :
  gust_factor (calculate_wind_vector tas_kts gs_kts heading_deg track_deg []) = 0.
Proof. reflexivity. Qed.

(** With a sample that is not negative in the history, the scan finds
    the maximum and the gust factor is maximum minus mean. *)

Lemma gust_factor_max_minus_mean
  (tas_kts gs_kts heading_deg track_deg : R) (ias_history : list R) :
  ias_history <> [] ->
  0 <= history_max ias_history ->
  gust_factor
    (calculate_wind_vector tas_kts gs_kts heading_deg track_deg ias_history)
  = history_max ias_history - history_mean ias_history.
Proof.
  intros Hne Hmax.
  destruct ias_history as [|v rest]; [contradiction|].
  cbn [calculate_wind_vector gust_factor].
  rewrite gust_analysis_value, Rmax_right by assumption.
  reflexivity.
Qed.

(** C3: on the history [-5; -3] the scan, which starts its maximum at
    0, reports gust factor 4, while the maximum of the history minus its
    mean is 1. *)
Theorem gust_factor_negative_history
  (tas_kts gs_kts heading_deg track_deg : R) :
  gust_factor
    (calculate_wind_vector tas_kts gs_kts heading_deg track_deg [-5; -3]) = 4
  /\ history_max [-5; -3] - history_mean [-5; -3] = 1.
Proof.
  assert (Hmax : history_max [-5; -3] = -3).
  { unfold history_max. cbn [fold_left]. apply Rmax_right. lra. }
  assert (Hmean : history_mean [-5; -3] = -4).
  { unfold history_mean. cbn [fold_right length INR]. lra. }
  split.
  - cbn [calculate_wind_vector gust_factor].
    rewrite gust_analysis_value, Hmax, Hmean, Rmax_left by lra. lra.
  - rewrite Hmax, Hmean. lra.
Qed.

(** The history of [main]: maximum 155.8, mean 150.35. *)

Example gust_factor_sample_history
  (tas_kts gs_kts heading_deg track_deg : R) :
  gust_factor
    (calculate_wind_vector tas_kts gs_kts heading_deg track_deg
       [145.5; 148; 151.2; 149.5; 155.8; 152.1]) = 5.45.
Proof.
  cbn [calculate_wind_vector gust_factor].
  rewrite gust_analysis_value.
  unfold history_max, history_mean. cbn [fold_left fold_right length].
  replace (INR 6) with 6 by (simpl; lra).
  rewrite (Rmax_right 145.5 148), (Rmax_right 148 151.2),
    (Rmax_left 151.2 149.5), (Rmax_right 151.2 155.8),
    (Rmax_left 155.8 152.1), (Rmax_right 0 155.8) by lra.
  lra.
Qed.

(** ** Envelope margins *)

Lemma std_min_three (a b c : R) : std_min a [b; c] = Rmin a (Rmin b c).
Proof.
  unfold std_min, Rmin. cbn [fold_left].
  destruct (Rlt_dec b a), (Rle_dec b c), (Rle_dec a b), (Rle_dec a c);
    repeat match goal with
           | |- context [Rlt_dec ?u ?v] => destruct (Rlt_dec u v)
           end; lra.
Qed.

(** C2: the three margins and their minimum.  [vs_n] is the stall speed
    at the current load factor, [vso * sqrt (1 / cos bank)]. *)
Theorem calculate_envelope_margins
  (weight_kg bank_deg ias_kts tas_kts mach altitude_ft vso_kts vne_kts mmo : R) :
  let e := calculate_envelope weight_kg bank_deg ias_kts tas_kts mach
                              altitude_ft vso_kts vne_kts mmo in
  let vs_n := vso_kts * sqrt (1 / cos (bank_deg * (PI / 180))) in
  (0 < vs_n -> stall_margin_pct e = (ias_kts - vs_n) / vs_n * 100) /\
  (~ 0 < vs_n -> stall_margin_pct e = 100) /\
  (0 < vne_kts -> vmo_margin_pct e = (vne_kts - ias_kts) / vne_kts * 100) /\
  (~ 0 < vne_kts -> vmo_margin_pct e = 100) /\
  (0 < mmo -> mmo_margin_pct e = (mmo - mach) / mmo * 100) /\
  (~ 0 < mmo -> mmo_margin_pct e = 100) /\
  min_margin_pct e
  = Rmin (stall_margin_pct e) (Rmin (vmo_margin_pct e) (mmo_margin_pct e)).
Proof.
  cbv zeta. unfold calculate_envelope, DEG_TO_RAD.
  cbn [stall_margin_pct vmo_margin_pct mmo_margin_pct min_margin_pct].
  repeat split; try apply std_min_three; intros H;
    match goal with
    | |- context [Rgt_dec ?u 0] => destruct (Rgt_dec u 0) as [Hgt|Hle]
    end; try reflexivity; unfold Rgt in *; contradiction.
Qed.

Lemma calculate_envelope_margins_witness :
  stall_margin_pct (calculate_envelope 60000 0 180 200 0.5 10000 120 350 0.82)
  = 50.
Proof.
  assert (Hvs : 120 * sqrt (1 / cos (0 * (PI / 180))) = 120).
  { rewrite Rmult_0_l, cos_0, Rdiv_1_r, sqrt_1. lra. }
  destruct (calculate_envelope_margins 60000 0 180 200 0.5 10000 120 350 0.82)
    as [Hstall _].
  cbv zeta in Hstall. rewrite Hstall; rewrite Hvs; lra.
Defined.

(** C10: the reserved parameters (weight, true airspeed and altitude of
    [calculate_envelope]; true airspeed and weight of
    [calculate_glide_reach]) have no influence on the result. *)
Theorem reserved_parameters_unused
  (bank_deg ias_kts mach vso_kts vne_kts mmo agl_ft headwind_kts : R) :
  (forall weight_kg tas_kts altitude_ft weight_kg' tas_kts' altitude_ft' : R,
      calculate_envelope weight_kg bank_deg ias_kts tas_kts mach altitude_ft
                         vso_kts vne_kts mmo
      = calculate_envelope weight_kg' bank_deg ias_kts tas_kts' mach altitude_ft'
                           vso_kts vne_kts mmo)
  /\
  (forall tas_kts weight_kg tas_kts' weight_kg' : R,
      calculate_glide_reach agl_ft tas_kts weight_kg headwind_kts
      = calculate_glide_reach agl_ft tas_kts' weight_kg' headwind_kts).
Proof.
  split; intros; reflexivity.
Qed.

(** ** Energy state *)

(** C5: specific energy height is v^2 / (2 g) plus altitude, with the
    speed in m/s, the altitude in metres and the sum converted back to
    feet; the rate is the vertical speed; the trend is Increasing
    exactly above +50, Decreasing exactly below -50 and Stable in
    between. *)
Theorem calculate_energy_spec (tas_kts altitude_ft vs_fpm : R) :
  let e := calculate_energy tas_kts altitude_ft vs_fpm in
  specific_energy_ft e
  = ((tas_kts * 0.514444) * (tas_kts * 0.514444) / (2 * 9.80665)
     + altitude_ft * 0.3048) * 3.28084 /\
  specific_energy_rate e = vs_fpm /\
  (trend e = Increasing <-> specific_energy_rate e > 50) /\
  (trend e = Decreasing <-> specific_energy_rate e < -50) /\
  (trend e = Stable <-> -50 <= specific_energy_rate e <= 50).
Proof.
  cbv zeta. unfold calculate_energy, KTS_TO_MS, FT_TO_M, M_TO_FT, GRAVITY.
  cbn [specific_energy_ft specific_energy_rate trend].
  split; [reflexivity|]. split; [reflexivity|].
  destruct (Rgt_dec vs_fpm 50) as [Hhi|Hhi];
    [|destruct (Rlt_dec vs_fpm (-50)) as [Hlo|Hlo]];
    repeat split; intros; try discriminate; try reflexivity; lra.
Qed.

Lemma calculate_energy_spec_witness :
  trend (calculate_energy 300 35000 (-1500)) = Decreasing.
Proof.
  destruct (calculate_energy_spec 300 35000 (-1500))
    as (_ & Hrate & _ & [_ Hdec] & _).
  apply Hdec. rewrite Hrate. lra.
Defined.

(** ** Glide reach *)

(** C4: the wind-adjusted range is still-air range times
    (1 - headwind / best glide speed) when that product is not
    negative, and 0 otherwise; it is never negative; and with headwind
    at least the best glide speed, 75, and a still-air range that is not
    negative, it is 0. *)
Theorem calculate_glide_reach_spec
  (agl_ft tas_kts weight_kg headwind_kts : R) :
  let g := calculate_glide_reach agl_ft tas_kts weight_kg headwind_kts in
  let product := max_range_nm g * (1 - headwind_kts / best_glide_speed_kts g) in
  best_glide_speed_kts g = 75 /\
  max_range_nm g = agl_ft / 6076 * 12 /\
  (0 <= product -> max_range_with_wind_nm g = product) /\
  (product < 0 -> max_range_with_wind_nm g = 0) /\
  0 <= max_range_with_wind_nm g /\
  (75 <= headwind_kts -> 0 <= max_range_nm g -> max_range_with_wind_nm g = 0).
Proof.
  cbv zeta. unfold calculate_glide_reach.
  cbn [max_range_nm max_range_with_wind_nm best_glide_speed_kts].
  destruct (Rgt_dec 75 0) as [_|Hn]; [|lra].
  set (still_air := agl_ft / 6076 * 12).
  set (factor := 1 - headwind_kts / 75).
  split; [reflexivity|]. split; [reflexivity|].
  destruct (Rlt_dec (still_air * factor) 0) as [Hneg|Hpos].
  - repeat split; intros; try reflexivity; lra.
  - repeat split; intros; try reflexivity; try lra.
    assert (Hf : factor <= 0) by (unfold factor; lra).
    nra.
Qed.

Lemma calculate_glide_reach_spec_witness :
  max_range_with_wind_nm (calculate_glide_reach 6076 120 60000 80) = 0.
Proof.
  destruct (calculate_glide_reach_spec 6076 120 60000 80)
    as (_ & Hstill & _ & _ & _ & Hzero).
  apply Hzero; [lra | rewrite Hstill; lra].
Defined.

(** ** Load factor and stall margin against bank *)

Lemma bank_rad_range (bank_deg : R) :
  0 < bank_deg < 90 -> 0 < bank_deg * DEG_TO_RAD < PI / 2.
Proof.
  intros [Hlo Hhi]. unfold DEG_TO_RAD.
  pose proof PI_RGT_0 as Hpi. split; nra.
Qed.

Lemma cos_bank_positive (bank_deg : R) :
  0 < bank_deg < 90 -> 0 < cos (bank_deg * DEG_TO_RAD).
Proof.
  intros Hb. destruct (bank_rad_range bank_deg Hb) as [Hlo Hhi].
  pose proof PI_RGT_0. apply cos_gt_0; lra.
Qed.

Lemma load_factor_increasing (b1 b2 : R) :
  0 < b1 -> b1 < b2 -> b2 < 90 ->
  1 / cos (b1 * DEG_TO_RAD) < 1 / cos (b2 * DEG_TO_RAD).
Proof.
  intros H1 H12 H2.
  assert (Hc2 : 0 < cos (b2 * DEG_TO_RAD)) by (apply cos_bank_positive; lra).
  assert (Hc1 : 0 < cos (b1 * DEG_TO_RAD)) by (apply cos_bank_positive; lra).
  assert (Hdec : cos (b2 * DEG_TO_RAD) < cos (b1 * DEG_TO_RAD)).
  { destruct (bank_rad_range b1) as [? ?]; [lra|].
    destruct (bank_rad_range b2) as [? ?]; [lra|].
    pose proof PI_RGT_0.
    apply cos_decreasing_1; try lra.
    unfold DEG_TO_RAD. nra. }
  unfold Rdiv. rewrite !Rmult_1_l.
  apply Rinv_lt_contravar; [nra | assumption].
Qed.

(** In a turn of less than 90 degrees with a positive 1g stall speed
    the stall margin is the quotient, not the fallback. *)

Lemma stall_margin_in_turn
  (weight_kg bank_deg ias_kts tas_kts mach altitude_ft vso_kts vne_kts mmo : R) :
  0 < bank_deg < 90 -> 0 < vso_kts ->
  let e := calculate_envelope weight_kg bank_deg ias_kts tas_kts mach
                              altitude_ft vso_kts vne_kts mmo in
  let vs := vso_kts * sqrt (current_load_factor e) in
  0 < current_load_factor e /\ 0 < vs /\
  stall_margin_pct e = (ias_kts - vs) / vs * 100.
Proof.
  intros Hb Hvso. cbv zeta. unfold calculate_envelope.
  cbn [current_load_factor stall_margin_pct].
  pose proof (cos_bank_positive bank_deg Hb) as Hcos.
  assert (Hn : 0 < 1 / cos (bank_deg * DEG_TO_RAD))
    by (apply Rdiv_lt_0_compat; lra).
  assert (Hvs : 0 < vso_kts * sqrt (1 / cos (bank_deg * DEG_TO_RAD)))
    by (apply Rmult_lt_0_compat; [assumption | apply sqrt_lt_R0; assumption]).
  repeat split; try assumption.
  destruct (Rgt_dec (vso_kts * sqrt (1 / cos (bank_deg * DEG_TO_RAD))) 0)
    as [_|Hno]; [reflexivity | unfold Rgt in Hno; contradiction].
Qed.

Lemma margin_quotient (ias v : R) : 0 < v -> (ias - v) / v = ias * / v - 1.
Proof. intros Hv. field. lra. Qed.

Lemma margin_decreasing (ias v1 v2 : R) :
  0 <= ias -> 0 < v1 -> v1 <= v2 -> (ias - v2) / v2 <= (ias - v1) / v1.
Proof.
  intros Hias Hv1 Hv12.
  rewrite !margin_quotient by lra.
  assert (Hinv : / v2 <= / v1) by (apply Rinv_le_contravar; lra).
  nra.
Qed.

Lemma margin_increasing_negative_ias (ias v1 v2 : R) :
  ias < 0 -> 0 < v1 -> v1 < v2 -> (ias - v1) / v1 < (ias - v2) / v2.
Proof.
  intros Hias Hv1 Hv12.
  rewrite !margin_quotient by lra.
  assert (Hinv : / v2 < / v1) by (apply Rinv_lt_contravar; nra).
  nra.
Qed.

(** C8, as the code has it: for banks in (0,90) the load factor is
    strictly increasing in bank, and for a fixed indicated airspeed that
    is not negative and a fixed positive 1g stall speed the stall margin
    does not increase when the load factor increases. *)
Theorem envelope_monotone
  (weight_kg ias_kts tas_kts mach altitude_ft vso_kts vne_kts mmo b1 b2 : R) :
  0 < b1 < 90 -> 0 < b2 < 90 ->
  let e1 := calculate_envelope weight_kg b1 ias_kts tas_kts mach
                               altitude_ft vso_kts vne_kts mmo in
  let e2 := calculate_envelope weight_kg b2 ias_kts tas_kts mach
                               altitude_ft vso_kts vne_kts mmo in
  (b1 < b2 -> current_load_factor e1 < current_load_factor e2) /\
  (0 <= ias_kts -> 0 < vso_kts ->
   current_load_factor e1 <= current_load_factor e2 ->
   stall_margin_pct e2 <= stall_margin_pct e1).
Proof.
  intros Hb1 Hb2. cbv zeta. split.
  - intros H12. cbn [calculate_envelope current_load_factor].
    apply load_factor_increasing; lra.
  - intros Hias Hvso Hload.
    destruct (stall_margin_in_turn weight_kg b1 ias_kts tas_kts mach
                altitude_ft vso_kts vne_kts mmo Hb1 Hvso) as (Hn1 & Hv1 & ->).
    destruct (stall_margin_in_turn weight_kg b2 ias_kts tas_kts mach
                altitude_ft vso_kts vne_kts mmo Hb2 Hvso) as (Hn2 & Hv2 & ->).
    apply Rmult_le_compat_r; [lra|].
    apply margin_decreasing; try assumption.
    apply Rmult_le_compat_l; [lra|].
    apply sqrt_le_1_alt. exact Hload.
Qed.

Lemma envelope_monotone_witness :
  let e1 := calculate_envelope 60000 30 180 200 0.5 10000 120 350 0.82 in
  let e2 := calculate_envelope 60000 60 180 200 0.5 10000 120 350 0.82 in
  current_load_factor e1 < current_load_factor e2 /\
  stall_margin_pct e2 <= stall_margin_pct e1.
Proof.
  assert (H30 : 0 < 30 < 90) by lra.
  assert (H60 : 0 < 60 < 90) by lra.
  destruct (envelope_monotone 60000 180 200 0.5 10000 120 350 0.82 30 60 H30 H60)
    as [Hload Hstall].
  assert (Hlt := Hload ltac:(lra)).
  split; [exact Hlt|].
  apply Hstall; [lra | lra | apply Rlt_le; exact Hlt].
Defined.

(** C8, as stated, fails when the indicated airspeed is negative: at
    -10 with 1g stall speed 100, going from 30 to 60 degrees of bank
    raises the load factor and raises the stall margin as well. *)
Lemma stall_margin_negative_ias_counterexample :
  let e1 := calculate_envelope 60000 30 (-10) 200 0.5 10000 100 350 0.82 in
  let e2 := calculate_envelope 60000 60 (-10) 200 0.5 10000 100 350 0.82 in
  current_load_factor e1 < current_load_factor e2 /\
  stall_margin_pct e1 < stall_margin_pct e2.
Proof.
  cbv zeta.
  assert (H30 : 0 < 30 < 90) by lra.
  assert (H60 : 0 < 60 < 90) by lra.
  assert (Hvso : 0 < 100) by lra.
  assert (Hload : 1 / cos (30 * DEG_TO_RAD) < 1 / cos (60 * DEG_TO_RAD))
    by (apply load_factor_increasing; lra).
  destruct (stall_margin_in_turn 60000 30 (-10) 200 0.5 10000 100 350 0.82
              H30 Hvso) as (Hn1 & Hv1 & ->).
  destruct (stall_margin_in_turn 60000 60 (-10) 200 0.5 10000 100 350 0.82
              H60 Hvso) as (Hn2 & Hv2 & ->).
  cbn [calculate_envelope current_load_factor] in *.
  split; [exact Hload|].
  apply Rmult_lt_compat_r; [lra|].
  apply margin_increasing_negative_ias; [lra | assumption |].
  apply Rmult_lt_compat_l; [lra|].
  apply sqrt_lt_1_alt. lra.
Qed.

(** * Further properties of the code *)

(** ** binomial_coefficient *)

Lemma choose_above (n k : nat) : (n < k)%nat -> choose n k = O.
Proof.
  revert k. induction n as [|n IH]; intros [|k] Hlt; simpl; try lia.
  rewrite !IH by lia. reflexivity.
Qed.

Lemma choose_diag (n : nat) : choose n n = 1%nat.
Proof.
  induction n as [|n IH]; simpl; [reflexivity|].
  rewrite IH, choose_above by lia. reflexivity.
Qed.

Lemma choose_one (n : nat) : choose n 1 = n.
Proof.
  induction n as [|n IH]; simpl; [reflexivity|].
  rewrite IH. destruct n; reflexivity.
Qed.

Lemma choose_fact (n k : nat) :
  (k <= n)%nat -> (choose n k * (fact k * fact (n - k)) = fact n)%nat.
Proof.
  revert k. induction n as [|n IH]; intros k Hle.
  - assert (k = O) by lia. subst. reflexivity.
  - destruct k as [|k].
    + cbn [choose Nat.sub fact]. lia.
    + cbn [choose]. destruct (Nat.eq_dec k n) as [->|Hne].
      * rewrite choose_diag, choose_above by lia.
        replace (S n - S n)%nat with O by lia. cbn [fact]. lia.
      * pose proof (IH k ltac:(lia)) as H1.
        pose proof (IH (S k) ltac:(lia)) as H2.
        replace (S n - S k)%nat with (n - k)%nat by lia.
        replace (n - k)%nat with (S (n - S k)) in * by lia.
        cbn [fact] in *. nia.
Qed.

Lemma choose_le_pow (n k : nat) : (choose n k <= 2 ^ n)%nat.
Proof.
  revert k. induction n as [|n IH]; intros [|k]; cbn [choose].
  - simpl. lia.
  - simpl. lia.
  - pose proof (Nat.pow_nonzero 2 (S n)). lia.
  - pose proof (IH k). pose proof (IH (S k)).
    rewrite Nat.pow_succ_r'. lia.
Qed.

Lemma choose_symmetric (n k : nat) :
  (k <= n)%nat -> choose n k = choose n (n - k).
Proof.
  intros Hle.
  pose proof (choose_fact n k Hle) as H1.
  pose proof (choose_fact n (n - k) ltac:(lia)) as H2.
  replace (n - (n - k))%nat with k in H2 by lia.
  pose proof (fact_neq_0 k). pose proof (fact_neq_0 (n - k)).
  apply Nat.mul_cancel_r with (p := (fact k * fact (n - k))%nat); [nia|].
  rewrite H1. rewrite <- H2. lia.
Qed.

(** The code against Pascal's triangle: the shortcuts for [k > n],
    [k = 0], [k = n] and [k = 1] agree with it, and the sum wraps. *)

Lemma binomial_coefficient_choose (n k : nat) :
  (Z.of_nat n < 2 ^ 32)%Z ->
  binomial_coefficient n k = (Z.of_nat (choose n k) mod ULLONG_WRAP)%Z.
Proof.
  unfold ULLONG_WRAP.
  revert k. induction n as [|n IH]; intros k Hn.
  - destruct k as [|k]; reflexivity.
  - cbn [binomial_coefficient].
    destruct (Nat.ltb_spec (S n) k) as [Hlt|Hge].
    { rewrite choose_above by lia. reflexivity. }
    destruct (Nat.eqb_spec k 0) as [->|Hk0]; [reflexivity|].
    destruct (Nat.eqb_spec k (S n)) as [->|Hkn].
    { cbn [orb]. rewrite choose_diag. reflexivity. }
    cbn [orb].
    destruct (Nat.eqb_spec k 1) as [->|Hk1].
    { rewrite choose_one, Z.mod_small; [reflexivity | lia]. }
    destruct k as [|k]; [lia|].
    replace (S k - 1)%nat with k by lia.
    rewrite !IH by lia. fold ULLONG_WRAP. unfold ULLONG_WRAP.
    rewrite <- Zplus_mod. cbn [choose]. rewrite Nat2Z.inj_add. reflexivity.
Qed.

(** X1: below 64 nothing wraps, and the result is the binomial
    coefficient: multiplied by k! (n-k)! it gives n!. *)
Theorem binomial_coefficient_exact (n k : nat) :
  (n < 64)%nat -> (k <= n)%nat ->
  (binomial_coefficient n k * Z.of_nat (fact k * fact (n - k))
   = Z.of_nat (fact n))%Z.
Proof.
  intros Hn Hk.
  rewrite binomial_coefficient_choose by lia.
  unfold ULLONG_WRAP.
  rewrite Z.mod_small.
  - rewrite <- Nat2Z.inj_mul, choose_fact by assumption. reflexivity.
  - split; [lia|].
    pose proof (choose_le_pow n k) as Hle.
    apply Nat2Z.inj_le in Hle. rewrite Nat2Z.inj_pow in Hle.
    assert (2 ^ Z.of_nat n < 2 ^ 64)%Z by (apply Z.pow_lt_mono_r; lia).
    change (Z.of_nat 2) with 2%Z in Hle. lia.
Qed.

Lemma binomial_coefficient_exact_witness :
  (binomial_coefficient 5 2 * Z.of_nat (fact 2 * fact (5 - 2))
   = Z.of_nat (fact 5))%Z.
Proof. apply (binomial_coefficient_exact 5 2); lia. Defined.

(** X2: for every [unsigned int] [n], the result is 0 when [k > n] and
    otherwise the binomial coefficient (the number [c] with
    c k! (n-k)! = n!) reduced modulo 2^64. *)
Theorem binomial_coefficient_modulo (n k : nat) :
  (Z.of_nat n < 2 ^ 32)%Z ->
  ((n < k)%nat -> binomial_coefficient n k = 0%Z) /\
  ((k <= n)%nat ->
   exists c : nat,
     (c * (fact k * fact (n - k)) = fact n)%nat /\
     binomial_coefficient n k = (Z.of_nat c mod 2 ^ 64)%Z).
Proof.
  intros Hn. split.
  - intros Hlt. rewrite binomial_coefficient_choose, choose_above by assumption.
    reflexivity.
  - intros Hle. exists (choose n k). split.
    + apply choose_fact; assumption.
    + apply binomial_coefficient_choose; assumption.
Qed.

Lemma binomial_coefficient_modulo_witness :
  binomial_coefficient 3 7 = 0%Z.
Proof.
  apply (binomial_coefficient_modulo 3 7); [vm_compute; reflexivity | lia].
Defined.

(** X3: choosing [k] out of [n] and choosing [n - k] out of [n] give the
    same result, wrap-around included. *)
Theorem binomial_coefficient_symmetric (n k : nat) :
  (Z.of_nat n < 2 ^ 32)%Z -> (k <= n)%nat ->
  binomial_coefficient n k = binomial_coefficient n (n - k).
Proof.
  intros Hn Hk.
  rewrite !binomial_coefficient_choose by assumption.
  rewrite <- choose_symmetric by assumption. reflexivity.
Qed.

Lemma binomial_coefficient_symmetric_witness :
  binomial_coefficient 10 3 = binomial_coefficient 10 (10 - 3).
Proof.
  apply (binomial_coefficient_symmetric 10 3); [vm_compute; reflexivity | lia].
Defined.

Example binomial_coefficient_examples :
  binomial_coefficient 5 2 = 10%Z /\ binomial_coefficient 10 3 = 120%Z.
Proof. split; vm_compute; reflexivity. Qed.

(** ** Wind components in closed form *)

Lemma sqrt_sum_squares_pos (x y : R) :
  0 < x -> sqrt (x * x + y * y) = x * sqrt (1 + (y / x)²).
Proof.
  intros Hx.
  replace (x * x + y * y) with (x * x * (1 + (y / x)²))
    by (unfold Rsqr; field; lra).
  rewrite sqrt_mult_alt by nra.
  rewrite sqrt_square by lra. reflexivity.
Qed.

Lemma sqrt_sum_squares_neg (x y : R) :
  x < 0 -> sqrt (x * x + y * y) = - x * sqrt (1 + (y / x)²).
Proof.
  intros Hx.
  replace (x * x + y * y) with ((- x) * (- x) * (1 + (y / x)²))
    by (unfold Rsqr; field; lra).
  rewrite sqrt_mult_alt by nra.
  rewrite sqrt_square by lra. reflexivity.
Qed.

Lemma sqrt_one_plus_square_pos (t : R) : 0 < sqrt (1 + t²).
Proof. apply sqrt_lt_R0. pose proof (Rle_0_sqr t). lra. Qed.

(** [atan2] is the angle of the point: radius times cosine is the
    second argument, radius times sine the first. *)

Lemma atan2_polar (y x : R) :
  sqrt (x * x + y * y) * cos (atan2 y x) = x /\
  sqrt (x * x + y * y) * sin (atan2 y x) = y.
Proof.
  unfold atan2.
  pose proof (sqrt_one_plus_square_pos (y / x)) as Hs.
  destruct (Rlt_dec 0 x) as [Hx|Hx].
  - rewrite sqrt_sum_squares_pos, cos_atan, sin_atan by assumption.
    split; field; lra.
  - destruct (Rlt_dec x 0) as [Hx'|Hx'].
    + rewrite sqrt_sum_squares_neg by assumption.
      destruct (Rle_dec 0 y) as [Hy|Hy].
      * rewrite neg_cos, neg_sin, cos_atan, sin_atan. split; field; lra.
      * rewrite cos_minus, sin_minus, cos_PI, sin_PI, cos_atan, sin_atan.
        split; field; lra.
    + assert (x = 0) by lra. subst x.
      rewrite Rmult_0_l, Rplus_0_l.
      destruct (Rlt_dec 0 y) as [Hy|Hy].
      * rewrite cos_PI2, sin_PI2, sqrt_square by lra. split; lra.
      * destruct (Rlt_dec y 0) as [Hy'|Hy'].
        -- rewrite cos_neg, sin_neg, cos_PI2, sin_PI2.
           replace (y * y) with ((- y) * (- y)) by ring.
           rewrite sqrt_square by lra. split; lra.
        -- assert (y = 0) by lra. subst y.
           rewrite Rmult_0_l, sqrt_0. split; lra.
Qed.

Lemma cos_period_Z (x : R) (k : Z) : cos (x + 2 * IZR k * PI) = cos x.
Proof.
  destruct (Z_le_gt_dec 0 k) as [Hk|Hk].
  - rewrite <- (Z2Nat.id k) by assumption.
    rewrite <- INR_IZR_INZ. apply cos_period.
  - rewrite <- (cos_period (x + 2 * IZR k * PI) (Z.to_nat (- k))).
    rewrite INR_IZR_INZ, Z2Nat.id, opp_IZR by lia.
    f_equal. ring.
Qed.

Lemma sin_period_Z (x : R) (k : Z) : sin (x + 2 * IZR k * PI) = sin x.
Proof.
  destruct (Z_le_gt_dec 0 k) as [Hk|Hk].
  - rewrite <- (Z2Nat.id k) by assumption.
    rewrite <- INR_IZR_INZ. apply sin_period.
  - rewrite <- (sin_period (x + 2 * IZR k * PI) (Z.to_nat (- k))).
    rewrite INR_IZR_INZ, Z2Nat.id, opp_IZR by lia.
    f_equal. ring.
Qed.

(** The relative wind angle used for the components is the angle of
    the wind vector minus the track, up to whole turns. *)

Lemma relative_wind_angle (theta track_deg : R) :
  exists k : Z,
    (normalize_angle (theta * RAD_TO_DEG + 180) + 180 - track_deg) * DEG_TO_RAD
    = (theta - track_deg * DEG_TO_RAD) + 2 * IZR k * PI.
Proof.
  destruct (normalize_angle_turns (theta * RAD_TO_DEG + 180)) as [k Hk].
  exists (k + 1)%Z. rewrite Hk, plus_IZR.
  unfold RAD_TO_DEG, DEG_TO_RAD. pose proof PI_RGT_0. field. lra.
Qed.

(** Along-track and cross-track parts of the wind vector. *)

Lemma wind_components_of_vector
  (tas_kts gs_kts heading_deg track_deg : R) (ias_history : list R) :
  let w := calculate_wind_vector tas_kts gs_kts heading_deg track_deg ias_history in
  let chi := track_deg * DEG_TO_RAD in
  let psi := heading_deg * DEG_TO_RAD in
  let wx := gs_kts * sin chi - tas_kts * sin psi in
  let wy := gs_kts * cos chi - tas_kts * cos psi in
  headwind w = - (wy * cos chi + wx * sin chi) /\
  crosswind w = wx * cos chi - wy * sin chi.
Proof.
  cbv zeta. unfold calculate_wind_vector, Vector2D.magnitude, Vector2D.sub.
  cbn [Vector2D.x Vector2D.y headwind crosswind].
  set (chi := track_deg * DEG_TO_RAD).
  set (psi := heading_deg * DEG_TO_RAD).
  set (wx := gs_kts * sin chi - tas_kts * sin psi).
  set (wy := gs_kts * cos chi - tas_kts * cos psi).
  destruct (relative_wind_angle (atan2 wx wy) track_deg) as [k Hk].
  fold chi in Hk. rewrite Hk, cos_period_Z, sin_period_Z, cos_minus, sin_minus.
  destruct (atan2_polar wx wy) as [Hc Hs].
  rewrite (Rplus_comm (wy * wy)) in Hc, Hs.
  set (r := sqrt (wx * wx + wy * wy)) in *.
  split.
  - replace (- r * (cos (atan2 wx wy) * cos chi + sin (atan2 wx wy) * sin chi))
      with (- ((r * cos (atan2 wx wy)) * cos chi
               + (r * sin (atan2 wx wy)) * sin chi)) by ring.
    rewrite Hc, Hs. reflexivity.
  - replace (r * (sin (atan2 wx wy) * cos chi - cos (atan2 wx wy) * sin chi))
      with ((r * sin (atan2 wx wy)) * cos chi
            - (r * cos (atan2 wx wy)) * sin chi) by ring.
    rewrite Hc, Hs. reflexivity.
Qed.

Lemma track_angle_square (a : R) : sin a * sin a + cos a * cos a = 1.
Proof. pose proof (sin2_cos2 a) as H. unfold Rsqr in H. exact H. Qed.

Lemma wind_components_in_inputs
  (tas_kts gs_kts heading_deg track_deg : R) (ias_history : list R) :
  let w := calculate_wind_vector tas_kts gs_kts heading_deg track_deg ias_history in
  headwind w = tas_kts * cos ((heading_deg - track_deg) * (PI / 180)) - gs_kts /\
  crosswind w = tas_kts * sin ((track_deg - heading_deg) * (PI / 180)).
Proof.
  cbv zeta.
  destruct (wind_components_of_vector tas_kts gs_kts heading_deg track_deg
              ias_history) as [Hh Hc].
  cbv zeta in Hh, Hc. rewrite Hh, Hc. unfold DEG_TO_RAD.
  replace ((heading_deg - track_deg) * (PI / 180))
    with (heading_deg * (PI / 180) - track_deg * (PI / 180)) by ring.
  replace ((track_deg - heading_deg) * (PI / 180))
    with (track_deg * (PI / 180) - heading_deg * (PI / 180)) by ring.
  rewrite cos_minus, sin_minus.
  pose proof (track_angle_square (track_deg * (PI / 180))) as Hsq.
  set (s1 := sin (track_deg * (PI / 180))) in *.
  set (c1 := cos (track_deg * (PI / 180))) in *.
  set (s2 := sin (heading_deg * (PI / 180))).
  set (c2 := cos (heading_deg * (PI / 180))).
  split.
  - replace (- ((gs_kts * c1 - tas_kts * c2) * c1
                + (gs_kts * s1 - tas_kts * s2) * s1))
      with (tas_kts * (c2 * c1 + s2 * s1) - gs_kts * (s1 * s1 + c1 * c1))
      by ring.
    rewrite Hsq. ring.
  - ring.
Qed.

(** X4: whatever the angles and speeds, the reported headwind is
    TAS * cos (heading - track) - GS and the reported crosswind is
    TAS * sin (track - heading): the normalisation of the direction and
    the detour through [atan2] cancel out. *)
Theorem wind_components_closed_form
  (tas_kts gs_kts heading_deg track_deg : R) (ias_history : list R) :
  let w := calculate_wind_vector tas_kts gs_kts heading_deg track_deg ias_history in
  headwind w = tas_kts * cos ((heading_deg - track_deg) * (PI / 180)) - gs_kts /\
  crosswind w = tas_kts * sin ((track_deg - heading_deg) * (PI / 180)).
Proof.
  apply wind_components_in_inputs.
Qed.

(** X5: in terms of the reported direction: headwind is
    speed * cos (direction_from - track) and crosswind is
    - speed * sin (direction_from - track), so wind from straight ahead
    is all headwind, wind from 90 degrees right of track gives crosswind
    - speed, and the two components square-sum to the speed squared. *)
Theorem wind_components_from_direction
  (tas_kts gs_kts heading_deg track_deg : R) (ias_history : list R) :
  let w := calculate_wind_vector tas_kts gs_kts heading_deg track_deg ias_history in
  let from_rad := (direction_from w - track_deg) * (PI / 180) in
  headwind w = speed_kts w * cos from_rad /\
  crosswind w = - speed_kts w * sin from_rad /\
  headwind w * headwind w + crosswind w * crosswind w
  = speed_kts w * speed_kts w.
Proof.
  cbv zeta. unfold calculate_wind_vector.
  cbn [headwind crosswind speed_kts direction_from].
  set (speed := Vector2D.magnitude _).
  set (dir := normalize_angle _).
  unfold DEG_TO_RAD.
  replace ((dir + 180 - track_deg) * (PI / 180))
    with ((dir - track_deg) * (PI / 180) + PI)
    by (pose proof PI_RGT_0; field; lra).
  rewrite neg_cos, neg_sin.
  pose proof (track_angle_square ((dir - track_deg) * (PI / 180))) as Hsq.
  set (s := sin ((dir - track_deg) * (PI / 180))) in *.
  set (c := cos ((dir - track_deg) * (PI / 180))) in *.
  split; [ring|]. split; [ring|].
  replace (- speed * - c * (- speed * - c) + speed * - s * (speed * - s))
    with (speed * speed * (s * s + c * c)) by ring.
  rewrite Hsq. ring.
Qed.

(** X6: law of cosines for the wind triangle, and with it the triangle
    bounds: for speeds that are not negative the wind speed lies between
    |GS - TAS| and GS + TAS. *)
Theorem wind_speed_triangle
  (tas_kts gs_kts heading_deg track_deg : R) (ias_history : list R) :
  let w := calculate_wind_vector tas_kts gs_kts heading_deg track_deg ias_history in
  0 <= speed_kts w /\
  speed_kts w * speed_kts w
  = gs_kts * gs_kts + tas_kts * tas_kts
    - 2 * gs_kts * tas_kts * cos ((track_deg - heading_deg) * (PI / 180)) /\
  (0 <= tas_kts -> 0 <= gs_kts ->
   Rabs (gs_kts - tas_kts) <= speed_kts w <= gs_kts + tas_kts).
Proof.
  cbv zeta. unfold calculate_wind_vector, Vector2D.magnitude, Vector2D.sub.
  cbn [Vector2D.x Vector2D.y speed_kts]. unfold DEG_TO_RAD.
  replace ((track_deg - heading_deg) * (PI / 180))
    with (track_deg * (PI / 180) - heading_deg * (PI / 180)) by ring.
  pose proof (COS_bound (track_deg * (PI / 180) - heading_deg * (PI / 180)))
    as Hcos.
  rewrite cos_minus in *.
  pose proof (track_angle_square (track_deg * (PI / 180))) as H1.
  pose proof (track_angle_square (heading_deg * (PI / 180))) as H2.
  set (s1 := sin (track_deg * (PI / 180))) in *.
  set (c1 := cos (track_deg * (PI / 180))) in *.
  set (s2 := sin (heading_deg * (PI / 180))) in *.
  set (c2 := cos (heading_deg * (PI / 180))) in *.
  set (q := (gs_kts * s1 - tas_kts * s2) * (gs_kts * s1 - tas_kts * s2)
            + (gs_kts * c1 - tas_kts * c2) * (gs_kts * c1 - tas_kts * c2)).
  assert (Hq : q = gs_kts * gs_kts + tas_kts * tas_kts
                   - 2 * gs_kts * tas_kts * (c1 * c2 + s1 * s2)).
  { unfold q.
    replace (gs_kts * gs_kts) with (gs_kts * gs_kts * (s1 * s1 + c1 * c1))
      by (rewrite H1; ring).
    replace (tas_kts * tas_kts) with (tas_kts * tas_kts * (s2 * s2 + c2 * c2))
      by (rewrite H2; ring).
    ring. }
  assert (Hq0 : 0 <= q).
  { pose proof (Rle_0_sqr (gs_kts * s1 - tas_kts * s2)) as Ha.
    pose proof (Rle_0_sqr (gs_kts * c1 - tas_kts * c2)) as Hb.
    unfold Rsqr in Ha, Hb. unfold q. lra. }
  pose proof (sqrt_pos q) as Hs0.
  pose proof (sqrt_sqrt q Hq0) as Hss.
  split; [exact Hs0|]. split; [lra|].
  intros Htas Hgs.
  assert (Hprod : 0 <= gs_kts * tas_kts) by nra.
  assert (Hlo : (gs_kts - tas_kts) * (gs_kts - tas_kts) <= sqrt q * sqrt q) by nra.
  assert (Hhi : sqrt q * sqrt q <= (gs_kts + tas_kts) * (gs_kts + tas_kts)) by nra.
  split.
  - unfold Rabs. destruct (Rcase_abs (gs_kts - tas_kts)); nra.
  - nra.
Qed.

Lemma wind_speed_triangle_witness :
  Rabs (230 - 250) <= speed_kts (calculate_wind_vector 250 230 90 85 [])
  <= 230 + 250.
Proof.
  destruct (wind_speed_triangle 250 230 90 85 []) as (_ & _ & Hb).
  apply Hb; lra.
Defined.

(** ** Gust factor *)






(** X8: for a history that is not empty the gust factor is the larger
    of 0 and the largest sample, minus the mean of the samples. *)
Theorem gust_factor_formula
  (tas_kts gs_kts heading_deg track_deg v : R) (rest : list R) :
  gust_factor
    (calculate_wind_vector tas_kts gs_kts heading_deg track_deg (v :: rest))
  = Rmax 0 (history_max (v :: rest)) - history_mean (v :: rest).
Proof.
  cbn [calculate_wind_vector gust_factor]. apply gust_analysis_value.
Qed.

(** ** normalize_angle in closed form *)

(** X9: over the reals, where both loops exit for every input, the
    result is the input minus 360 times the integer part of
    input / 360. *)
Theorem normalize_angle_closed_form (a : R) :
  normalize_angle a = a - 360 * IZR (Int_part (a / 360)).
Proof.
  destruct (normalize_angle_turns a) as [k Hk].
  pose proof (normalize_angle_range a) as [Hlo Hhi].
  assert (Hint : (- k)%Z = Int_part (a / 360)).
  { apply (Int_part_frac_part_spec (a / 360) (- k) (normalize_angle a / 360)).
    - split.
      + apply Rmult_le_reg_r with 360; [lra|]. field_simplify. lra.
      + apply Rmult_lt_reg_r with 360; [lra|]. field_simplify. lra.
    - rewrite Hk, opp_IZR. field. }
  rewrite <- Hint, opp_IZR, Hk. ring.
Qed.

(** ** normalize_angle on binary64: what a returned value satisfies *)

Module Binary64_results.

Import PrimFloat.
Local Open Scope float_scope.

Lemma while_negative_exit (fuel : nat) (a r : float) :
  Binary64.while_negative fuel a = Some r -> (r <? 0) = false.
Proof.
  revert a. induction fuel as [|fuel IH]; intros a H; [discriminate|].
  cbn [Binary64.while_negative] in H.
  destruct (a <? 0) eqn:Hneg.
  - apply (IH _ H).
  - injection H as <-. exact Hneg.
Qed.

Lemma while_ge_360_exit (fuel : nat) (a r : float) :
  Binary64.while_ge_360 fuel a = Some r -> (360 <=? r) = false.
Proof.
  revert a. induction fuel as [|fuel IH]; intros a H; [discriminate|].
  cbn [Binary64.while_ge_360] in H.
  destruct (360 <=? a) eqn:Hge.
  - apply (IH _ H).
  - injection H as <-. exact Hge.
Qed.

(** X10: on binary64, whenever [normalize_angle] returns, the value is
    not [>= 360]; and a value that is neither [< 0] nor [>= 360] comes
    back unchanged, both loops being skipped. *)
Theorem normalize_angle_returned (fuel : nat) (a r : float) :
  Binary64.normalize_angle fuel a = Some r ->
  (360 <=? r) = false /\
  ((r <? 0) = false -> Binary64.normalize_angle fuel r = Some r).
Proof.
  intros H. unfold Binary64.normalize_angle in H.
  destruct (Binary64.while_negative fuel a) as [a'|] eqn:Hneg; [|discriminate].
  pose proof (while_ge_360_exit _ _ _ H) as Hexit.
  split; [exact Hexit|].
  intros Hr. destruct fuel as [|fuel]; [discriminate|].
  unfold Binary64.normalize_angle.
  cbn [Binary64.while_negative Binary64.while_ge_360].
  rewrite Hr. cbn [Binary64.while_ge_360]. rewrite Hexit. reflexivity.
Qed.

Lemma normalize_angle_returned_witness :
  (360 <=? 270) = false /\
  ((270 <? 0) = false -> Binary64.normalize_angle 2 270 = Some 270).
Proof.
  apply (normalize_angle_returned 2 (-90) 270).
  vm_compute. reflexivity.
Defined.

End Binary64_results.

(** ** Envelope margins: bank, load factor and signs *)

Lemma cos_bank_positive_both_sides (bank_deg : R) :
  -90 < bank_deg < 90 -> 0 < cos (bank_deg * DEG_TO_RAD) <= 1.
Proof.
  intros [Hlo Hhi]. pose proof PI_RGT_0 as Hpi. split.
  - apply cos_gt_0; unfold DEG_TO_RAD; nra.
  - apply COS_bound.
Qed.

(** X11: a left bank and the same right bank give the same margins. *)
Theorem calculate_envelope_bank_sign
  (weight_kg bank_deg ias_kts tas_kts mach altitude_ft vso_kts vne_kts mmo : R) :
  calculate_envelope weight_kg (- bank_deg) ias_kts tas_kts mach altitude_ft
                     vso_kts vne_kts mmo
  = calculate_envelope weight_kg bank_deg ias_kts tas_kts mach altitude_ft
                       vso_kts vne_kts mmo.
Proof.
  unfold calculate_envelope.
  replace (- bank_deg * DEG_TO_RAD) with (- (bank_deg * DEG_TO_RAD)) by ring.
  rewrite cos_neg. reflexivity.
Qed.

(** X12: for a bank between -90 and 90 degrees the load factor is at
    least 1, and with a positive 1g stall speed and an indicated
    airspeed that is not negative the stall margin is at most the
    wings-level margin (IAS - Vso) / Vso * 100. *)
Theorem stall_margin_at_most_wings_level
  (weight_kg bank_deg ias_kts tas_kts mach altitude_ft vso_kts vne_kts mmo : R) :
  -90 < bank_deg < 90 ->
  let e := calculate_envelope weight_kg bank_deg ias_kts tas_kts mach
                              altitude_ft vso_kts vne_kts mmo in
  1 <= current_load_factor e /\
  (0 < vso_kts -> 0 <= ias_kts ->
   stall_margin_pct e <= (ias_kts - vso_kts) / vso_kts * 100).
Proof.
  intros Hb. cbv zeta. unfold calculate_envelope.
  cbn [current_load_factor stall_margin_pct].
  destruct (cos_bank_positive_both_sides bank_deg Hb) as [Hc0 Hc1].
  assert (Hn : 1 <= 1 / cos (bank_deg * DEG_TO_RAD)).
  { apply Rmult_le_reg_r with (cos (bank_deg * DEG_TO_RAD)); [exact Hc0|].
    unfold Rdiv. rewrite Rmult_assoc, Rinv_l by lra. lra. }
  split; [exact Hn|].
  intros Hvso Hias.
  assert (Hsq : 1 <= sqrt (1 / cos (bank_deg * DEG_TO_RAD))).
  { rewrite <- sqrt_1 at 1. apply sqrt_le_1_alt. exact Hn. }
  set (root := sqrt (1 / cos (bank_deg * DEG_TO_RAD))) in *.
  assert (Hvs : vso_kts <= vso_kts * root) by nra.
  destruct (Rgt_dec (vso_kts * root) 0) as [_|Hno];
    [|unfold Rgt in Hno; lra].
  apply Rmult_le_compat_r; [lra|].
  apply margin_decreasing; assumption.
Qed.

Lemma stall_margin_at_most_wings_level_witness :
  stall_margin_pct (calculate_envelope 60000 25 180 200 0.5 10000 120 350 0.82)
  <= (180 - 120) / 120 * 100.
Proof.
  assert (Hb : -90 < 25 < 90) by lra.
  destruct (stall_margin_at_most_wings_level
              60000 25 180 200 0.5 10000 120 350 0.82 Hb) as [_ Hm].
  apply Hm; lra.
Defined.

(** X13: with a positive never-exceed speed the VMO margin is negative
    exactly when IAS is above it; likewise the MMO margin against Mach
    and MMO.  The minimum margin is negative as soon as one of the two
    limits is exceeded. *)
Theorem over_limit_margins
  (weight_kg bank_deg ias_kts tas_kts mach altitude_ft vso_kts vne_kts mmo : R) :
  let e := calculate_envelope weight_kg bank_deg ias_kts tas_kts mach
                              altitude_ft vso_kts vne_kts mmo in
  (0 < vne_kts -> (vmo_margin_pct e < 0 <-> vne_kts < ias_kts)) /\
  (0 < mmo -> (mmo_margin_pct e < 0 <-> mmo < mach)) /\
  (0 < vne_kts -> vne_kts < ias_kts -> min_margin_pct e < 0) /\
  (0 < mmo -> mmo < mach -> min_margin_pct e < 0).
Proof.
  cbv zeta.
  assert (Hsign : forall limit v : R, 0 < limit ->
            ((limit - v) / limit * 100 < 0 <-> limit < v)).
  { intros limit v Hl.
    assert (Hinv : 0 < / limit) by (apply Rinv_0_lt_compat; exact Hl).
    unfold Rdiv. split; intros H.
    - assert ((limit - v) * / limit < 0) by lra.
      destruct (Rlt_dec limit v) as [|Hn]; [assumption|].
      assert (0 <= (limit - v) * / limit) by (apply Rmult_le_pos; lra). lra.
    - assert ((limit - v) * / limit < 0); [|lra].
      replace ((limit - v) * / limit) with (- ((v - limit) * / limit)) by ring.
      assert (0 < (v - limit) * / limit) by (apply Rmult_lt_0_compat; lra).
      lra. }
  unfold calculate_envelope.
  cbn [vmo_margin_pct mmo_margin_pct min_margin_pct].
  rewrite std_min_three.
  set (stall := if Rgt_dec (vso_kts * _) 0 then _ else 100).
  assert (Hv : 0 < vne_kts ->
               (if Rgt_dec vne_kts 0
                then (vne_kts - ias_kts) / vne_kts * 100 else 100)
               = (vne_kts - ias_kts) / vne_kts * 100).
  { intros H. destruct (Rgt_dec vne_kts 0) as [_|Hn];
      [reflexivity | unfold Rgt in Hn; contradiction]. }
  assert (Hm : 0 < mmo ->
               (if Rgt_dec mmo 0 then (mmo - mach) / mmo * 100 else 100)
               = (mmo - mach) / mmo * 100).
  { intros H. destruct (Rgt_dec mmo 0) as [_|Hn];
      [reflexivity | unfold Rgt in Hn; contradiction]. }
  split; [|split; [|split]].
  - intros H. rewrite Hv by assumption. apply Hsign; assumption.
  - intros H. rewrite Hm by assumption. apply Hsign; assumption.
  - intros H0 H1.
    eapply Rle_lt_trans; [apply Rmin_r|].
    eapply Rle_lt_trans; [apply Rmin_l|].
    rewrite Hv by assumption. apply Hsign; assumption.
  - intros H0 H1.
    eapply Rle_lt_trans; [apply Rmin_r|].
    eapply Rle_lt_trans; [apply Rmin_r|].
    rewrite Hm by assumption. apply Hsign; assumption.
Qed.

Lemma over_limit_margins_witness :
  min_margin_pct (calculate_envelope 60000 25 360 380 0.5 10000 120 350 0.82)
  < 0.
Proof.
  destruct (over_limit_margins 60000 25 360 380 0.5 10000 120 350 0.82)
    as (_ & _ & Hmin & _).
  apply Hmin; lra.
Defined.

(** ** Energy state *)

(** X14: the conversion to metres and back is not the identity: at zero
    airspeed the specific energy is 1.000000032 times the altitude.  The
    sign of the airspeed does not matter, the kinetic part only adds to
    that value, and the energy grows with altitude and with speed. *)
Theorem specific_energy_shape (tas_kts altitude_ft vs_fpm : R) :
  let energy_ft tas alt := specific_energy_ft (calculate_energy tas alt vs_fpm) in
  energy_ft 0 altitude_ft = 1.000000032 * altitude_ft /\
  energy_ft (- tas_kts) altitude_ft = energy_ft tas_kts altitude_ft /\
  energy_ft 0 altitude_ft <= energy_ft tas_kts altitude_ft /\
  (forall higher : R, altitude_ft <= higher ->
     energy_ft tas_kts altitude_ft <= energy_ft tas_kts higher) /\
  (forall faster : R, Rabs tas_kts <= Rabs faster ->
     energy_ft tas_kts altitude_ft <= energy_ft faster altitude_ft).
Proof.
  cbv zeta. unfold calculate_energy, KTS_TO_MS, FT_TO_M, M_TO_FT, GRAVITY.
  cbn [specific_energy_ft].
  assert (Hke : forall t, t * 0.514444 * (t * 0.514444) / (2 * 9.80665)
                          = t * t * (0.514444 * 0.514444 / (2 * 9.80665)))
    by (intros; unfold Rdiv; ring).
  assert (Hk : 0 < 0.514444 * 0.514444 / (2 * 9.80665)) by lra.
  set (k := 0.514444 * 0.514444 / (2 * 9.80665)) in *.
  rewrite !Hke. clearbody k.
  assert (Hsq : 0 <= tas_kts * tas_kts) by nra.
  assert (Hkin : 0 <= tas_kts * tas_kts * k) by (apply Rmult_le_pos; lra).
  split; [lra|].
  split; [replace (- tas_kts * - tas_kts) with (tas_kts * tas_kts) by ring;
          reflexivity|].
  split; [lra|].
  split; [intros; lra|].
  intros faster Hf. rewrite Hke.
  assert (Hle : tas_kts * tas_kts <= faster * faster).
  { pose proof (Rabs_pos tas_kts) as Hp.
    replace (tas_kts * tas_kts) with (Rabs tas_kts * Rabs tas_kts)
      by (rewrite <- Rabs_mult; apply Rabs_pos_eq; nra).
    replace (faster * faster) with (Rabs faster * Rabs faster)
      by (rewrite <- Rabs_mult; apply Rabs_pos_eq; nra).
    apply Rmult_le_compat; assumption. }
  assert (tas_kts * tas_kts * k <= faster * faster * k)
    by (apply Rmult_le_compat_r; lra).
  lra.
Qed.

Lemma specific_energy_shape_witness :
  specific_energy_ft (calculate_energy 250 35000 0)
  <= specific_energy_ft (calculate_energy (-300) 35000 0).
Proof.
  destruct (specific_energy_shape 250 35000 0) as (_ & _ & _ & _ & Hf).
  apply Hf. unfold Rabs.
  destruct (Rcase_abs 250), (Rcase_abs (-300)); lra.
Defined.

(** ** Glide reach *)

(** X15: above ground (height not negative) the wind-adjusted range
    equals the still-air range without wind, does not grow when the
    headwind grows, is at most the still-air range in a headwind and at
    least that in a tailwind, and below a headwind of 75 it is the
    unclamped product. *)
Theorem glide_reach_above_ground
  (agl_ft tas_kts weight_kg headwind_kts : R) :
  0 <= agl_ft ->
  let range hw :=
    max_range_with_wind_nm (calculate_glide_reach agl_ft tas_kts weight_kg hw) in
  let still_air :=
    max_range_nm (calculate_glide_reach agl_ft tas_kts weight_kg headwind_kts) in
  range 0 = still_air /\
  (forall stronger : R, headwind_kts <= stronger ->
     range stronger <= range headwind_kts) /\
  (0 <= headwind_kts -> range headwind_kts <= still_air) /\
  (headwind_kts <= 0 -> still_air <= range headwind_kts) /\
  (headwind_kts <= 75 ->
   range headwind_kts = agl_ft / 6076 * 12 * (1 - headwind_kts / 75)).
Proof.
  intros Hagl. cbv zeta. unfold calculate_glide_reach.
  cbn [max_range_nm max_range_with_wind_nm].
  destruct (Rgt_dec 75 0) as [_|Hn]; [|lra].
  assert (Hs : 0 <= agl_ft / 6076 * 12) by lra.
  set (s := agl_ft / 6076 * 12) in *.
  clearbody s.
  assert (Hclamp : forall hw,
            (if Rlt_dec (s * (1 - hw / 75)) 0 then 0 else s * (1 - hw / 75))
            = Rmax 0 (s * (1 - hw / 75))).
  { intros hw. unfold Rmax.
    destruct (Rlt_dec (s * (1 - hw / 75)) 0),
             (Rle_dec 0 (s * (1 - hw / 75))); lra. }
  split.
  { rewrite Hclamp. replace (s * (1 - 0 / 75)) with s by lra.
    apply Rmax_right. exact Hs. }
  split.
  { intros stronger Hle. rewrite !Hclamp.
    assert (s * (1 - stronger / 75) <= s * (1 - headwind_kts / 75)) by nra.
    apply Rmax_case_strong; intros H1.
    - apply Rmax_l.
    - eapply Rle_trans; [|apply Rmax_r]. assumption. }
  split.
  { intros Hhw. rewrite Hclamp.
    assert (s * (1 - headwind_kts / 75) <= s) by nra.
    apply Rmax_case_strong; intros; lra. }
  split.
  { intros Hhw. rewrite Hclamp.
    assert (s <= s * (1 - headwind_kts / 75)) by nra.
    eapply Rle_trans; [|apply Rmax_r]. assumption. }
  intros Hhw. rewrite Hclamp. apply Rmax_right. nra.
Qed.

Lemma glide_reach_above_ground_witness :
  max_range_with_wind_nm (calculate_glide_reach 6076 120 60000 30)
  = 6076 / 6076 * 12 * (1 - 30 / 75).
Proof.
  assert (Hagl : 0 <= 6076) by lra.
  destruct (glide_reach_above_ground 6076 120 60000 30 Hagl)
    as (_ & _ & _ & _ & Hp).
  apply Hp. lra.
Defined.

(** X16: the still-air range is not clamped: for a negative height it
    is negative.  The wind-adjusted range is then 0 up to a headwind of
    75, and positive beyond. *)
Theorem glide_reach_below_ground
  (agl_ft tas_kts weight_kg headwind_kts : R) :
  agl_ft < 0 ->
  let g := calculate_glide_reach agl_ft tas_kts weight_kg headwind_kts in
  max_range_nm g < 0 /\
  (headwind_kts <= 75 -> max_range_with_wind_nm g = 0) /\
  (75 < headwind_kts -> 0 < max_range_with_wind_nm g).
Proof.
  intros Hagl. cbv zeta. unfold calculate_glide_reach.
  cbn [max_range_nm max_range_with_wind_nm].
  destruct (Rgt_dec 75 0) as [_|Hn]; [|lra].
  assert (Hs : agl_ft / 6076 * 12 < 0) by lra.
  set (s := agl_ft / 6076 * 12) in *.
  split; [exact Hs|].
  destruct (Rlt_dec (s * (1 - headwind_kts / 75)) 0) as [Hneg|Hpos].
  - split; [reflexivity|]. intros Hhw. nra.
  - split; intros Hhw; nra.
Qed.

Lemma glide_reach_below_ground_witness :
  0 < max_range_with_wind_nm (calculate_glide_reach (-6076) 120 60000 150).
Proof.
  assert (Hagl : -6076 < 0) by lra.
  destruct (glide_reach_below_ground (-6076) 120 60000 150 Hagl)
    as (_ & _ & Hp).
  apply Hp. lra.
Defined.

(** ** main *)

Section MainProperties.

Variable parse_double : String.string -> option R.

Lemma parse_arguments_length (args : list String.string) (values : list R) :
  parse_arguments parse_double args = Some values ->
  length values = length args.
Proof.
  revert values. induction args as [|arg rest IH]; intros values H.
  - injection H as <-. reflexivity.
  - cbn [parse_arguments] in H.
    destruct (parse_double arg) as [v|]; [|discriminate].
    destruct (parse_arguments parse_double rest) as [vs|]; [|discriminate].
    injection H as <-. cbn [length]. f_equal. apply IH. reflexivity.
Qed.

Lemma parse_arguments_all (args : list String.string) :
  (exists values, parse_arguments parse_double args = Some values) <->
  Forall (fun arg => parse_double arg <> None) args.
Proof.
  induction args as [|arg rest IH].
  - split; [constructor | intros _; exists []; reflexivity].
  - cbn [parse_arguments]. split.
    + intros [values H].
      destruct (parse_double arg) as [v|] eqn:Hv; [|discriminate].
      destruct (parse_arguments parse_double rest) as [vs|]; [|discriminate].
      constructor; [rewrite Hv; discriminate|].
      apply IH. exists vs. reflexivity.
    + intros Hall. inversion Hall as [|a l Harg Hrest]; subst.
      destruct (parse_double arg) as [v|]; [|contradiction].
      apply IH in Hrest. destruct Hrest as [vs ->].
      exists (v :: vs). reflexivity.
Qed.

Lemma main_with_values
  (args : list String.string)
  (tas_kts gs_kts heading track ias_kts mach altitude_ft agl_ft vs_fpm
   weight_kg bank_deg vso_kts vne_kts mmo : R) :
  parse_arguments parse_double args
  = Some [tas_kts; gs_kts; heading; track; ias_kts; mach; altitude_ft;
          agl_ft; vs_fpm; weight_kg; bank_deg; vso_kts; vne_kts; mmo] ->
  main parse_double args
  = (0%Z,
     Some (print_json_results
             (calculate_wind_vector tas_kts gs_kts heading track
                [145.5; 148; 151.2; 149.5; 155.8; 152.1])
             (calculate_envelope weight_kg bank_deg ias_kts tas_kts mach
                altitude_ft vso_kts vne_kts mmo)
             (calculate_energy tas_kts altitude_ft vs_fpm)
             (calculate_glide_reach agl_ft tas_kts weight_kg
                (headwind
                   (calculate_wind_vector tas_kts gs_kts heading track
                      [145.5; 148; 151.2; 149.5; 155.8; 152.1]))))).
Proof.
  intros H. unfold main.
  pose proof (parse_arguments_length _ _ H) as Hlen. cbn [length] in Hlen.
  rewrite <- Hlen, H. reflexivity.
Qed.

Lemma main_fourteen_values (args : list String.string) (values : list R) :
  length args = 14%nat ->
  parse_arguments parse_double args = Some values ->
  fst (main parse_double args) = 0%Z /\ snd (main parse_double args) <> None.
Proof.
  intros Hlen H.
  pose proof (parse_arguments_length _ _ H) as Hv. rewrite Hlen in Hv.
  do 14 (destruct values as [|? values]; [discriminate|]).
  destruct values; [|discriminate].
  rewrite (main_with_values _ _ _ _ _ _ _ _ _ _ _ _ _ _ _ H).
  split; [reflexivity | discriminate].
Qed.

End MainProperties.

(** X17: [main] exits with 0 exactly when it gets fourteen arguments
    that all parse, and with 1 otherwise; results reach
    [print_json_results] exactly when it exits with 0. *)
Theorem main_exit_code
  (parse_double : String.string -> option R) (args : list String.string) :
  (fst (main parse_double args) = 0%Z \/ fst (main parse_double args) = 1%Z) /\
  (fst (main parse_double args) = 0%Z <->
   length args = 14%nat /\ Forall (fun arg => parse_double arg <> None) args) /\
  (snd (main parse_double args) <> None <-> fst (main parse_double args) = 0%Z).
Proof.
  destruct (Nat.eq_dec (length args) 14) as [Hlen|Hlen].
  - destruct (parse_arguments parse_double args) as [values|] eqn:Hp.
    + destruct (main_fourteen_values parse_double args values Hlen Hp)
        as [Hexit Hout].
      assert (Hall : Forall (fun arg => parse_double arg <> None) args)
        by (apply parse_arguments_all; exists values; exact Hp).
      rewrite Hexit. repeat split; auto.
    + assert (Hmain : main parse_double args = (1%Z, None)).
      { unfold main. rewrite Hlen, Hp. reflexivity. }
      rewrite Hmain. cbn [fst snd].
      repeat split; auto; try discriminate; try contradiction.
      intros [_ Hall]. apply parse_arguments_all in Hall.
      destruct Hall as [values Hv]. congruence.
  - assert (Hmain : main parse_double args = (1%Z, None)).
    { unfold main. destruct (Nat.eqb_spec (length args) 14);
        [contradiction | reflexivity]. }
    rewrite Hmain. cbn [fst snd].
    repeat split; auto; try discriminate; try contradiction.
    intros [Habs _]. contradiction.
Qed.

Lemma main_exit_code_witness :
  fst (main (fun _ => Some 100) []) <> 0%Z.
Proof.
  destruct (main_exit_code (fun _ => Some 100) []) as (_ & [Hzero _] & _).
  intros H. apply Hzero in H. destruct H as [Hlen _]. discriminate Hlen.
Defined.

(** X18: a run on fourteen parsed values hands [print_json_results]
    the four records of these values, with the glide computed from the
    headwind of the wind record: the wind-adjusted range is the larger of
    0 and agl / 6076 * 12 * (1 - (TAS cos (heading - track) - GS) / 75).
    The gust factor is 5.45 whatever the arguments, and the two
    combination counts are 10 and 120. *)
Theorem main_results
  (parse_double : String.string -> option R) (args : list String.string)
  (tas_kts gs_kts heading track ias_kts mach altitude_ft agl_ft vs_fpm
   weight_kg bank_deg vso_kts vne_kts mmo : R) :
  parse_arguments parse_double args
  = Some [tas_kts; gs_kts; heading; track; ias_kts; mach; altitude_ft;
          agl_ft; vs_fpm; weight_kg; bank_deg; vso_kts; vne_kts; mmo] ->
  exists out : JsonResults,
    main parse_double args = (0%Z, Some out) /\
    json_envelope out
    = calculate_envelope weight_kg bank_deg ias_kts tas_kts mach altitude_ft
                         vso_kts vne_kts mmo /\
    json_energy out = calculate_energy tas_kts altitude_ft vs_fpm /\
    headwind (json_wind out)
    = tas_kts * cos ((heading - track) * (PI / 180)) - gs_kts /\
    gust_factor (json_wind out) = 5.45 /\
    max_range_with_wind_nm (json_glide out)
    = Rmax 0 (agl_ft / 6076 * 12
              * (1 - (tas_kts * cos ((heading - track) * (PI / 180)) - gs_kts)
                     / 75)) /\
    combinations_5_choose_2 out = 10%Z /\
    combinations_10_choose_3 out = 120%Z.
Proof.
  intros H. eexists. split; [apply main_with_values; exact H|].
  cbn [print_json_results json_envelope json_energy json_wind json_glide
       combinations_5_choose_2 combinations_10_choose_3].
  destruct (wind_components_in_inputs tas_kts gs_kts heading track
              [145.5; 148; 151.2; 149.5; 155.8; 152.1]) as [Hh _].
  cbv zeta in Hh.
  split; [reflexivity|]. split; [reflexivity|]. split; [exact Hh|].
  split; [apply gust_factor_sample_history|].
  split.
  - rewrite Hh. unfold calculate_glide_reach. cbn [max_range_with_wind_nm].
    destruct (Rgt_dec 75 0) as [_|Hn]; [|lra].
    unfold Rmax.
    match goal with
    | |- context [Rlt_dec ?u 0] =>
        destruct (Rlt_dec u 0), (Rle_dec 0 u); lra
    end.
  - split; vm_compute; reflexivity.
Qed.

Lemma main_results_witness :
  exists out : JsonResults,
    main (fun _ => Some 100) (repeat String.EmptyString 14) = (0%Z, Some out) /\
    json_envelope out = calculate_envelope 100 100 100 100 100 100 100 100 100 /\
    json_energy out = calculate_energy 100 100 100 /\
    headwind (json_wind out) = 100 * cos ((100 - 100) * (PI / 180)) - 100 /\
    gust_factor (json_wind out) = 5.45 /\
    max_range_with_wind_nm (json_glide out)
    = Rmax 0 (100 / 6076 * 12
              * (1 - (100 * cos ((100 - 100) * (PI / 180)) - 100) / 75)) /\
    combinations_5_choose_2 out = 10%Z /\
    combinations_10_choose_3 out = 120%Z.
Proof.
  apply (main_results (fun _ => Some 100) (repeat String.EmptyString 14)
           100 100 100 100 100 100 100 100 100 100 100 100 100 100).
  reflexivity.
Defined.

(** ** normalize_angle inside calculate_wind_vector *)

(** X19: the one call of [normalize_angle] in the program gets an
    angle in (0,360], so over the reals its loops run at most once
    together, and the reported direction is that angle, or 0 for 360. *)
Theorem wind_direction_normalisation
  (tas_kts gs_kts heading_deg track_deg : R) (ias_history : list R) :
  let chi := track_deg * DEG_TO_RAD in
  let psi := heading_deg * DEG_TO_RAD in
  let wx := gs_kts * sin chi - tas_kts * sin psi in
  let wy := gs_kts * cos chi - tas_kts * cos psi in
  let angle := atan2 wx wy * RAD_TO_DEG + 180 in
  let w := calculate_wind_vector tas_kts gs_kts heading_deg track_deg ias_history in
  0 < angle <= 360 /\
  (normalize_angle_iterations angle <= 1)%nat /\
  (angle < 360 -> direction_from w = angle) /\
  (angle = 360 -> direction_from w = 0).
Proof.
  cbv zeta.
  set (angle := atan2 _ _ * RAD_TO_DEG + 180).
  assert (Hangle : 0 < angle <= 360) by apply wind_direction_argument.
  split; [exact Hangle|].
  split; [apply normalize_angle_iterations_one_turn; lra|].
  unfold calculate_wind_vector, Vector2D.sub.
  cbn [direction_from Vector2D.x Vector2D.y]. fold angle. clearbody angle.
  split.
  - intros Hlt. apply normalize_angle_fixed. lra.
  - intros Heq. rewrite Heq. unfold normalize_angle.
    rewrite while_negative_fixed by lra.
    simp while_ge_360. destruct (Rge_dec 360 360) as [Hy|Hn]; [|lra]. cbn.
    replace (360 - 360) with 0 by lra.
    apply while_ge_360_fixed. lra.
Qed.

Lemma wind_direction_normalisation_witness :
  direction_from (calculate_wind_vector 250 250 90 90 []) = 0
  \/ direction_from (calculate_wind_vector 250 250 90 90 [])
     = atan2 (250 * sin (90 * DEG_TO_RAD) - 250 * sin (90 * DEG_TO_RAD))
             (250 * cos (90 * DEG_TO_RAD) - 250 * cos (90 * DEG_TO_RAD))
       * RAD_TO_DEG + 180.
Proof.
  destruct (wind_direction_normalisation 250 250 90 90 [])
    as ([_ [Hlt|Heq]] & _ & Hin & Hfull).
  - right. apply Hin. exact Hlt.
  - left. apply Hfull. exact Heq.
Defined.
